(** * Short-code service: resolution, analytics and rate limiting

    A shallow embedding of the Go short-code service
    (services/shortcode/internal/{service,repository,api}) and the
    properties of its specification.

    The service talks to three collaborators that are not part of the
    repository: a PostgreSQL database reached through GORM, a Redis cache and
    the process clock.  They are modelled here as an explicit [World] that
    every operation threads through:

    - the three tables are lists of rows in insertion order; GORM's soft
      delete, its implicit [deleted_at IS NULL] filter, [First]'s primary-key
      order, the unique index on [short_codes.code], the primary keys with
      their sequences and the foreign keys on [short_codes.id] are written
      out;
    - Redis is a finite map from keys to values with an absolute expiry;
    - every [time.Now()] of one operation is the [now] argument it receives;
    - a backend may fail: each database (resp. Redis) command consumes one flag
      of a fault schedule, and fails when the flag is set;
    - every command issued to a backend is appended to a log, so that
      "touches no storage" is a statement about the log.

    Library code is kept apart from the code of the repository.  The
    service and the handlers are written over the library functions they
    call ([url.Parse], [time.ParseDuration], the HTTP client), and what is
    proved of them holds whatever these answer.  Where a property is about
    the value a library function computes, as for the [hours] parameter, the
    function is given as the library defines it.

    Embedded: the operations of the repository and of the service, the
    handlers, and the rate limiter.  The HTTP plumbing (routing, binding of
    the request, the other middleware) is not part of the model, nor is the
    goroutine that records a click after a redirect. *)

From Stdlib Require Import ZArith String Ascii List Bool Lia DecimalString.
From Stdlib Require SpecFloat.
From stdpp Require Import base decidable option list gmap strings.

Local Open Scope string_scope.
Local Open Scope Z_scope.

(** ** Errors

    Go error values: the four sentinels of package service, the errors that
    GORM and the database driver produce, and the two ways the code builds new
    errors ([errors.New] / [fmt.Errorf] without [%w], and [fmt.Errorf] with
    [%w], which keeps the wrapped error reachable for [errors.Is]). *)

Inductive error : Type :=
| ErrInvalidURL                        (* service.ErrInvalidURL *)
| ErrCodeExists                        (* service.ErrCodeExists *)
| ErrCodeNotFound                      (* service.ErrCodeNotFound *)
| ErrInvalidCode                       (* service.ErrInvalidCode *)
| ErrRecordNotFound                    (* gorm.ErrRecordNotFound *)
| ErrDuplicateKey                      (* driver: unique constraint violated *)
| ErrBackend                           (* driver: any other failure *)
| redis_Nil                            (* redis.Nil: no such key *)
| errors_New (msg : string)
| Errorf_w (msg : string) (inner : error).

#[global] Instance error_eq_dec : EqDecision error.
Proof. solve_decision. Defined.

(** [errors.Is err target] for the comparable errors above: walk the [%w]
    chain. *)
Fixpoint errors_Is (err target : error) : bool :=
  bool_decide (err = target) ||
  match err with
  | Errorf_w _ inner => errors_Is inner target
  | _ => false
  end.

(** ** Time

    Instants and durations are counts of nanoseconds.  A [time.Duration] is an
    int64, and arithmetic on it wraps.  The zero [time.Time] of a struct
    field that was never set is written 0. *)

Definition Nanosecond : Z := 1.
Definition Second : Z := 1000000000.
Definition Minute : Z := 60 * Second.
Definition Hour : Z := 60 * Minute.

Definition wrap64 (z : Z) : Z := (z + 2 ^ 63) mod 2 ^ 64 - 2 ^ 63.

(** [time.Duration(n) * time.Hour] *)
Definition Duration_mul (n d : Z) : Z := wrap64 (n * d).

(** [t.Truncate(time.Hour)] and SQL's [DATE_TRUNC('hour', t)] *)
Definition Truncate (t d : Z) : Z := t - t mod d.

(** ** Data model (package model) *)

Module ShortCode.
Record t : Type := mk {
  ID : Z;
  Code : string;
  OriginalURL : string;
  CreatedAt : Z;
  UpdatedAt : Z;
  ExpiresAt : option Z;
  ClickCount : Z;
  LastAccessedAt : option Z;
  DeletedAt : option Z
}.

Definition with_DeletedAt (d : option Z) (r : t) : t :=
  mk (ID r) (Code r) (OriginalURL r) (CreatedAt r) (UpdatedAt r)
     (ExpiresAt r) (ClickCount r) (LastAccessedAt r) d.
End ShortCode.

Module ClickLog.
Record t : Type := mk {
  ID : Z;
  ShortCodeID : Z;
  IPAddress : string;
  UserAgent : string;
  Referer : string;
  CreatedAt : Z
}.
End ClickLog.

Module AccessStatistics.
Record t : Type := mk {
  ID : Z;
  ShortCodeID : Z;
  IPAddress : string;
  Country : string;
  Region : string;
  City : string;
  HourBucket : Z;
  AccessCount : Z;
  CreatedAt : Z;
  UpdatedAt : Z
}.

Definition with_AccessCount (n : Z) (r : t) : t :=
  mk (ID r) (ShortCodeID r) (IPAddress r) (Country r) (Region r) (City r)
     (HourBucket r) n (CreatedAt r) (UpdatedAt r).
End AccessStatistics.

Record CreateShortCodeRequest : Type := {
  req_URL : string;
  req_CustomCode : string;
  req_ExpiresIn : Z
}.

Record CreateShortCodeResponse : Type := {
  resp_ShortCode : string;
  resp_ShortURL : string;
  resp_OriginalURL : string;
  resp_CreatedAt : Z;
  resp_ExpiresAt : option Z
}.

Record ShortCodeStats : Type := {
  stats_Code : string;
  stats_OriginalURL : string;
  stats_ClickCount : Z;
  stats_CreatedAt : Z;
  stats_LastAccessedAt : option Z
}.

Record HourlyStatItem : Type := {
  hourly_HourBucket : Z;
  hourly_AccessCount : Z;
  hourly_UniqueIPs : Z
}.

Record LocationStatItem : Type := {
  loc_Country : string;
  loc_Region : string;
  loc_City : string;
  loc_AccessCount : Z
}.

Record RecentAccessItem : Type := {
  recent_IPAddress : string;
  recent_Country : string;
  recent_Region : string;
  recent_City : string;
  recent_AccessTime : Z;
  recent_UserAgent : string
}.

Record DetailedStats : Type := {
  detailed_Code : string;
  detailed_OriginalURL : string;
  detailed_TotalClicks : Z;
  detailed_UniqueIPs : Z;
  detailed_CreatedAt : Z;
  detailed_LastAccessedAt : option Z;
  detailed_HourlyStats : list HourlyStatItem;
  detailed_LocationStats : list LocationStatItem;
  detailed_RecentAccesses : list RecentAccessItem
}.

(** ** The world outside the process *)

(** What a Redis key holds: the JSON of a short code, or bytes that
    [json.Unmarshal] rejects. *)
Inductive blob : Type :=
| JSON_ShortCode (sc : ShortCode.t)
| Undecodable (raw : string).

(** [json.Marshal] of a [model.ShortCode]: every field but [DeletedAt], which
    is tagged [json:"-"]. *)
Definition json_Marshal (sc : ShortCode.t) : blob :=
  JSON_ShortCode (ShortCode.with_DeletedAt None sc).

Definition json_Unmarshal (b : blob) : option ShortCode.t :=
  match b with
  | JSON_ShortCode sc => Some sc
  | Undecodable _ => None
  end.

(** Commands sent to the backends, in the order issued. *)
Inductive StorageOp : Type :=
| OpRedisGet (key : string)
| OpRedisSet (key : string)
| OpRedisDel (key : string)
| OpSelectShortCode (code : string)
| OpCountShortCode (code : string)
| OpInsertShortCode (code : string)
| OpDeleteShortCode (code : string)
| OpSelectAccessStats
| OpInsertAccessStats
| OpUpdateAccessStats (id : Z)
| OpQueryStats (which : nat).

Record World : Type := mkWorld {
  short_codes : list ShortCode.t;
  short_codes_seq : Z;
  click_logs : list ClickLog.t;
  click_logs_seq : Z;
  access_statistics : list AccessStatistics.t;
  access_statistics_seq : Z;
  redis : gmap string (blob * Z);
  db_faults : list bool;
  redis_faults : list bool;
  entropy : nat -> nat;
  drawn : nat;
  oplog : list StorageOp
}.

Definition with_short_codes (l : list ShortCode.t) (seq : Z) (w : World) : World :=
  mkWorld l seq (click_logs w) (click_logs_seq w) (access_statistics w)
          (access_statistics_seq w) (redis w) (db_faults w) (redis_faults w)
          (entropy w) (drawn w) (oplog w).

Definition with_click_logs (l : list ClickLog.t) (seq : Z) (w : World) : World :=
  mkWorld (short_codes w) (short_codes_seq w) l seq (access_statistics w)
          (access_statistics_seq w) (redis w) (db_faults w) (redis_faults w)
          (entropy w) (drawn w) (oplog w).

Definition with_access_statistics (l : list AccessStatistics.t) (seq : Z) (w : World)
  : World :=
  mkWorld (short_codes w) (short_codes_seq w) (click_logs w) (click_logs_seq w) l seq
          (redis w) (db_faults w) (redis_faults w) (entropy w) (drawn w) (oplog w).

Definition with_redis (m : gmap string (blob * Z)) (w : World) : World :=
  mkWorld (short_codes w) (short_codes_seq w) (click_logs w) (click_logs_seq w)
          (access_statistics w) (access_statistics_seq w) m (db_faults w)
          (redis_faults w) (entropy w) (drawn w) (oplog w).

Definition with_db_faults (f : list bool) (w : World) : World :=
  mkWorld (short_codes w) (short_codes_seq w) (click_logs w) (click_logs_seq w)
          (access_statistics w) (access_statistics_seq w) (redis w) f
          (redis_faults w) (entropy w) (drawn w) (oplog w).

Definition with_redis_faults (f : list bool) (w : World) : World :=
  mkWorld (short_codes w) (short_codes_seq w) (click_logs w) (click_logs_seq w)
          (access_statistics w) (access_statistics_seq w) (redis w) (db_faults w)
          f (entropy w) (drawn w) (oplog w).

Definition with_drawn (n : nat) (w : World) : World :=
  mkWorld (short_codes w) (short_codes_seq w) (click_logs w) (click_logs_seq w)
          (access_statistics w) (access_statistics_seq w) (redis w) (db_faults w)
          (redis_faults w) (entropy w) n (oplog w).

Definition with_oplog (l : list StorageOp) (w : World) : World :=
  mkWorld (short_codes w) (short_codes_seq w) (click_logs w) (click_logs_seq w)
          (access_statistics w) (access_statistics_seq w) (redis w) (db_faults w)
          (redis_faults w) (entropy w) (drawn w) l.

(** ** Effects: state and errors

    A Go function returning [(T, error)] with side effects on the backends is
    a function from the world to a result and the world it leaves.  Effects
    that happened before a failure stay. *)

Definition M (A : Type) : Type := World -> (error + A) * World.

Definition ret {A} (a : A) : M A := fun w => (inr a, w).
Definition fail {A} (e : error) : M A := fun w => (inl e, w).
Definition bind {A B} (m : M A) (k : A -> M B) : M B :=
  fun w => match m w with
           | (inl e, w') => (inl e, w')
           | (inr a, w') => k a w'
           end.

(** [try m] never fails: it hands the outcome of [m] to the caller, as Go
    does when the caller inspects [err] itself. *)
Definition try {A} (m : M A) : M (error + A) :=
  fun w => let '(r, w') := m w in (inr r, w').

Notation "'let*' x ':=' m 'in' k" := (bind m (fun x => k))
  (at level 10, x name, m at level 100, k at level 200).
Notation "m ';;' k" := (bind m (fun _ => k))
  (at level 100, k at level 200, right associativity).

Definition log (op : StorageOp) : M unit :=
  fun w => (inr tt, with_oplog (oplog w ++ [op]) w).

(** The next flag of a fault schedule; an exhausted schedule means a healthy
    backend. *)
Definition db_fault : M bool :=
  fun w => match db_faults w with
           | [] => (inr false, w)
           | b :: fs => (inr b, with_db_faults fs w)
           end.

Definition redis_fault : M bool :=
  fun w => match redis_faults w with
           | [] => (inr false, w)
           | b :: fs => (inr b, with_redis_faults fs w)
           end.

(** A database command: logged, then either failed by the backend or run. *)
Definition db_exec {A} (op : StorageOp) (run : M A) : M A :=
  log op ;;
  let* broken := db_fault in
  if (broken : bool) then fail ErrBackend else run.

Definition healthy (w : World) : Prop :=
  db_faults w = [] /\ redis_faults w = [].

(** ** Backend commands *)

(** *** Redis *)

(** [GET key]: the value, [redis.Nil] when the key is absent or its TTL has
    run out. *)
Definition redis_Get (now : Z) (key : string) : M blob :=
  log (OpRedisGet key) ;;
  let* broken := redis_fault in
  if (broken : bool) then fail ErrBackend
  else fun w =>
    match redis w !! key with
    | Some (v, expiry) => if now <? expiry then (inr v, w) else (inl redis_Nil, w)
    | None => (inl redis_Nil, w)
    end.

(** [SET key value EX ttl] *)
Definition redis_Set (now : Z) (key : string) (v : blob) (ttl : Z) : M unit :=
  log (OpRedisSet key) ;;
  let* broken := redis_fault in
  if (broken : bool) then fail ErrBackend
  else fun w => (inr tt, with_redis (<[key := (v, now + ttl)]> (redis w)) w).

(** [DEL key] *)
Definition redis_Del (key : string) : M unit :=
  log (OpRedisDel key) ;;
  let* broken := redis_fault in
  if (broken : bool) then fail ErrBackend
  else fun w => (inr tt, with_redis (delete key (redis w)) w).

(** *** Table short_codes

    [model.ShortCode] carries a [gorm.DeletedAt]: every query GORM builds for
    it filters on [deleted_at IS NULL], and [Delete] is an update that stamps
    [deleted_at].  The unique index on [code] is an ordinary index: it sees
    every physical row. *)

Definition has_code (code : string) (r : ShortCode.t) : bool :=
  String.eqb (ShortCode.Code r) code.

Definition live (r : ShortCode.t) : bool :=
  match ShortCode.DeletedAt r with None => true | Some _ => false end.

(** [expires_at IS NULL OR expires_at > now] *)
Definition not_expired (now : Z) (r : ShortCode.t) : bool :=
  match ShortCode.ExpiresAt r with None => true | Some e => now <? e end.

(** [ORDER BY id LIMIT 1] *)
Fixpoint first_by {A} (id : A -> Z) (l : list A) : option A :=
  match l with
  | [] => None
  | r :: l' =>
      match first_by id l' with
      | None => Some r
      | Some r' => if id r <=? id r' then Some r else Some r'
      end
  end.

(** [db.Where("code = ?", code).Where(cond).First(&shortCode)] *)
Definition db_First_short_code (code : string) (cond : ShortCode.t -> bool)
  : M ShortCode.t :=
  db_exec (OpSelectShortCode code) (fun w =>
    match first_by ShortCode.ID
            (List.filter (fun r => has_code code r && live r && cond r)
                         (short_codes w)) with
    | Some r => (inr r, w)
    | None => (inl ErrRecordNotFound, w)
    end).

(** [db.Model(&model.ShortCode{}).Where("code = ?", code).Count(&count)] *)
Definition db_Count_short_code (code : string) : M Z :=
  db_exec (OpCountShortCode code) (fun w =>
    (inr (Z.of_nat (length (List.filter (fun r => has_code code r && live r)
                                        (short_codes w)))), w)).

(** [db.Create(shortCode)]: the sequence hands out the next id, the unique
    index on [code] is checked against every row, GORM stamps [created_at]
    and [updated_at] and writes the result back into the struct. *)
Definition db_Create_short_code (now : Z) (sc : ShortCode.t) : M ShortCode.t :=
  db_exec (OpInsertShortCode (ShortCode.Code sc)) (fun w =>
    let id := short_codes_seq w + 1 in
    if existsb (has_code (ShortCode.Code sc)) (short_codes w)
    then (inl ErrDuplicateKey, with_short_codes (short_codes w) id w)
    else
      let row := ShortCode.mk id (ShortCode.Code sc) (ShortCode.OriginalURL sc)
                   now now (ShortCode.ExpiresAt sc) (ShortCode.ClickCount sc)
                   (ShortCode.LastAccessedAt sc) None in
      (inr row, with_short_codes (short_codes w ++ [row]) id w)).

(** [db.Where("code = ?", code).Delete(&model.ShortCode{})]: the soft delete;
    the result is [RowsAffected]. *)
Definition db_Delete_short_code (now : Z) (code : string) : M Z :=
  db_exec (OpDeleteShortCode code) (fun w =>
    let hit r := has_code code r && live r in
    (inr (Z.of_nat (length (List.filter hit (short_codes w)))),
     with_short_codes
       (map (fun r => if hit r then ShortCode.with_DeletedAt (Some now) r else r)
            (short_codes w))
       (short_codes_seq w) w)).

(** *** Table access_statistics *)

Definition same_bucket (s r : AccessStatistics.t) : bool :=
  (AccessStatistics.ShortCodeID r =? AccessStatistics.ShortCodeID s) &&
  String.eqb (AccessStatistics.IPAddress r) (AccessStatistics.IPAddress s) &&
  (AccessStatistics.HourBucket r =? AccessStatistics.HourBucket s).

Definition db_First_access_statistics (s : AccessStatistics.t)
  : M AccessStatistics.t :=
  db_exec OpSelectAccessStats (fun w =>
    match first_by AccessStatistics.ID
            (List.filter (same_bucket s) (access_statistics w)) with
    | Some r => (inr r, w)
    | None => (inl ErrRecordNotFound, w)
    end).

(** Some row of short_codes, live or soft-deleted, has the id: what a
    foreign key on [short_codes.id] asks for. *)
Definition references_short_code (id : Z) (w : World) : bool :=
  existsb (fun r => ShortCode.ID r =? id) (short_codes w).

(** [db.Create(stats)].
    - A zero [ID] is left to the sequence, which hands out its next value
      whether or not the insert goes through; a non-zero [ID] is inserted as
      it is.  The primary key refuses an id that a row already has.
    - [short_code_id] references [short_codes.id] (the [foreignKey] tag of
      the model): the insert is refused when no row has that id.
    - GORM stamps [created_at] and [updated_at] where the struct holds the
      zero time.
    The association field [ShortCode] of the struct is not part of the
    model: every caller leaves it empty. *)
Definition db_Create_access_statistics (now : Z) (s : AccessStatistics.t) : M unit :=
  db_exec OpInsertAccessStats (fun w =>
    let auto := AccessStatistics.ID s =? 0 in
    let seq := if auto then access_statistics_seq w + 1 else access_statistics_seq w in
    let id := if auto then seq else AccessStatistics.ID s in
    let stamp t := if t =? 0 then now else t in
    if existsb (fun r => AccessStatistics.ID r =? id) (access_statistics w)
    then (inl ErrDuplicateKey, with_access_statistics (access_statistics w) seq w)
    else if negb (references_short_code (AccessStatistics.ShortCodeID s) w)
    then (inl ErrBackend, with_access_statistics (access_statistics w) seq w)
    else
      let row := AccessStatistics.mk id (AccessStatistics.ShortCodeID s)
                   (AccessStatistics.IPAddress s) (AccessStatistics.Country s)
                   (AccessStatistics.Region s) (AccessStatistics.City s)
                   (AccessStatistics.HourBucket s) (AccessStatistics.AccessCount s)
                   (stamp (AccessStatistics.CreatedAt s))
                   (stamp (AccessStatistics.UpdatedAt s)) in
      (inr tt, with_access_statistics (access_statistics w ++ [row]) seq w)).

(** [db.Model(&existing).UpdateColumn("access_count", gorm.Expr("access_count + ?", 1))]:
    an update of the row whose primary key is [existing.ID]; the database
    evaluates the increment. *)
Definition db_Increment_access_count (existing : AccessStatistics.t) : M unit :=
  db_exec (OpUpdateAccessStats (AccessStatistics.ID existing)) (fun w =>
    (inr tt,
     with_access_statistics
       (map (fun r => if AccessStatistics.ID r =? AccessStatistics.ID existing
                      then AccessStatistics.with_AccessCount
                             (AccessStatistics.AccessCount r + 1) r
                      else r)
            (access_statistics w))
       (access_statistics_seq w) w)).

(** A read-only query. *)
Definition db_query {A} (op : StorageOp) (f : World -> A) : M A :=
  db_exec op (fun w => (inr (f w), w)).

(** *** The aggregate queries of GetDetailedStats

    SQL leaves the order of rows with equal sort keys open; the model breaks
    ties by keeping the order of first appearance. *)

Fixpoint insert_desc {A} (key : A -> Z) (x : A) (l : list A) : list A :=
  match l with
  | [] => [x]
  | y :: l' => if key y <? key x then x :: l else y :: insert_desc key x l'
  end.

(** [ORDER BY key DESC] *)
Definition order_desc {A} (key : A -> Z) (l : list A) : list A :=
  foldr (insert_desc key) [] l.

Definition sum_AccessCount (l : list AccessStatistics.t) : Z :=
  foldr Z.add 0 (map AccessStatistics.AccessCount l).

(** [WHERE short_code_id = ?], and [AND hour_bucket >= ?] when [hours > 0]. *)
Definition stats_rows (id hours startTime : Z) (w : World) : list AccessStatistics.t :=
  List.filter
    (fun r => (AccessStatistics.ShortCodeID r =? id) &&
              (if 0 <? hours then startTime <=? AccessStatistics.HourBucket r else true))
    (access_statistics w).

(** [Distinct("ip_address").Count(&uniqueIPs)] *)
Definition query_uniqueIPs (id hours startTime : Z) (w : World) : Z :=
  Z.of_nat (length (remove_dups
    (map AccessStatistics.IPAddress (stats_rows id hours startTime w)))).

(** [Select("hour_bucket, SUM(access_count), COUNT(DISTINCT ip_address)")
     .Group("hour_bucket").Order("hour_bucket DESC").Limit(100)] *)
Definition query_hourlyStats (id hours startTime : Z) (w : World) : list HourlyStatItem :=
  let rows := stats_rows id hours startTime w in
  take 100 (order_desc hourly_HourBucket
    (map (fun b =>
            let g := List.filter (fun r => AccessStatistics.HourBucket r =? b) rows in
            {| hourly_HourBucket := b;
               hourly_AccessCount := sum_AccessCount g;
               hourly_UniqueIPs :=
                 Z.of_nat (length (remove_dups (map AccessStatistics.IPAddress g))) |})
         (remove_dups (map AccessStatistics.HourBucket rows)))).

Definition place (r : AccessStatistics.t) : string * string * string :=
  (AccessStatistics.Country r, AccessStatistics.Region r, AccessStatistics.City r).

(** [Select("country, region, city, SUM(access_count)")
     .Group("country, region, city").Order("access_count DESC").Limit(50)] *)
Definition query_locationStats (id hours startTime : Z) (w : World) : list LocationStatItem :=
  let rows := stats_rows id hours startTime w in
  take 50 (order_desc loc_AccessCount
    (map (fun p =>
            let g := List.filter (fun r => bool_decide (place r = p)) rows in
            {| loc_Country := p.1.1; loc_Region := p.1.2; loc_City := p.2;
               loc_AccessCount := sum_AccessCount g |})
         (remove_dups (map place rows)))).

(** click_logs LEFT JOIN access_statistics on the IP, the code and the hour
    of the click; [ORDER BY click_logs.created_at DESC LIMIT 20]. *)
Definition query_recentAccesses (id hours startTime : Z) (w : World) : list RecentAccessItem :=
  let logs :=
    List.filter
      (fun l => (ClickLog.ShortCodeID l =? id) &&
                (if 0 <? hours then startTime <=? ClickLog.CreatedAt l else true))
      (click_logs w) in
  let joined (l : ClickLog.t) :=
    let item country region city :=
      {| recent_IPAddress := ClickLog.IPAddress l;
         recent_Country := country; recent_Region := region; recent_City := city;
         recent_AccessTime := ClickLog.CreatedAt l;
         recent_UserAgent := ClickLog.UserAgent l |} in
    match List.filter
            (fun s => String.eqb (ClickLog.IPAddress l) (AccessStatistics.IPAddress s) &&
                      (ClickLog.ShortCodeID l =? AccessStatistics.ShortCodeID s) &&
                      (Truncate (ClickLog.CreatedAt l) Hour =? AccessStatistics.HourBucket s))
            (access_statistics w) with
    | [] => [item "" "" ""]
    | matches =>
        map (fun s => item (AccessStatistics.Country s) (AccessStatistics.Region s)
                           (AccessStatistics.City s)) matches
    end in
  take 20 (order_desc recent_AccessTime (concat (map joined logs))).

(** ** Package repository *)

Module repository.

Definition cacheKey (code : string) : string := "shortcode:" +:+ code.

(** The cache TTL of GetByCode: [24*time.Hour]. *)
Definition cacheTTL : Z := 24 * Hour.

(** Turn GORM's not-found into the repository's own error, pass any other
    error through. *)
Definition not_found_or (err : error) : error :=
  if errors_Is err ErrRecordNotFound
  then errors_New "short code not found"
  else err.

Definition Create (now : Z) (shortCode : ShortCode.t) : M ShortCode.t :=
  db_Create_short_code now shortCode.

Definition GetByCode (now : Z) (code : string) : M ShortCode.t :=
  (* First try to get from cache *)
  let* cached := try (redis_Get now (cacheKey code)) in
  match match cached with
        | inr data => json_Unmarshal data
        | inl _ => None
        end with
  | Some shortCode => ret shortCode
  | None =>
      (* Get from database *)
      let* found := try (db_First_short_code code (not_expired now)) in
      match found with
      | inl err => fail (not_found_or err)
      | inr shortCode =>
          (* Cache to Redis (24 hours) *)
          try (redis_Set now (cacheKey code) (json_Marshal shortCode) cacheTTL) ;;
          ret shortCode
      end
  end.

Definition GetStats (code : string) : M ShortCodeStats :=
  let* found := try (db_First_short_code code (fun _ => true)) in
  match found with
  | inl err => fail (not_found_or err)
  | inr shortCode =>
      ret {| stats_Code := ShortCode.Code shortCode;
             stats_OriginalURL := ShortCode.OriginalURL shortCode;
             stats_ClickCount := ShortCode.ClickCount shortCode;
             stats_CreatedAt := ShortCode.CreatedAt shortCode;
             stats_LastAccessedAt := ShortCode.LastAccessedAt shortCode |}
  end.

Definition CodeExists (code : string) : M bool :=
  let* count := db_Count_short_code code in
  ret (0 <? count).

Definition InvalidateCache (code : string) : M unit :=
  redis_Del (cacheKey code).

Definition Delete (now : Z) (code : string) : M unit :=
  (* Delete cache; a failure is logged and the deletion goes on *)
  try (InvalidateCache code) ;;
  (* Delete from database *)
  let* rowsAffected := db_Delete_short_code now code in
  if rowsAffected =? 0 then fail (errors_New "short code not found")
  else ret tt.

Definition RecordAccessStats (now : Z) (stats : AccessStatistics.t) : M unit :=
  (* Try to find existing record for this shortcode, IP, and hour bucket *)
  let* found := try (db_First_access_statistics stats) in
  match found with
  | inl err =>
      if errors_Is err ErrRecordNotFound
      then (* Create new record *)
        db_Create_access_statistics now (AccessStatistics.with_AccessCount 1 stats)
      else fail err
  | inr existing =>
      (* Update existing record *)
      db_Increment_access_count existing
  end.

Definition GetDetailedStats (now : Z) (code : string) (hours : Z) : M DetailedStats :=
  (* Get basic shortcode info *)
  let* found := try (db_First_short_code code (fun _ => true)) in
  match found with
  | inl err => fail (not_found_or err)
  | inr shortCode =>
      (* Calculate time range *)
      let startTime := now + Duration_mul (wrap64 (- hours)) Hour in
      let id := ShortCode.ID shortCode in
      let* uniqueIPs := db_query (OpQueryStats 0) (query_uniqueIPs id hours startTime) in
      let* hourlyStats := db_query (OpQueryStats 1) (query_hourlyStats id hours startTime) in
      let* locationStats := db_query (OpQueryStats 2) (query_locationStats id hours startTime) in
      let* recentAccesses := db_query (OpQueryStats 3) (query_recentAccesses id hours startTime) in
      ret {| detailed_Code := ShortCode.Code shortCode;
             detailed_OriginalURL := ShortCode.OriginalURL shortCode;
             detailed_TotalClicks := ShortCode.ClickCount shortCode;
             detailed_UniqueIPs := uniqueIPs;
             detailed_CreatedAt := ShortCode.CreatedAt shortCode;
             detailed_LastAccessedAt := ShortCode.LastAccessedAt shortCode;
             detailed_HourlyStats := hourlyStats;
             detailed_LocationStats := locationStats;
             detailed_RecentAccesses := recentAccesses |}
  end.

End repository.

(** ** Package service *)

Module service.

Definition defaultCodeLength : nat := 6.
Definition charset : string :=
  "abcdefghijklmnopqrstuvwxyzABCDEFGHIJKLMNOPQRSTUVWXYZ0123456789".
Definition maxRetries : nat := 5.

(** *** The random source

    [rand.Int(rand.Reader, max)] is a number in [[0, max)]; the model takes
    the next value of the world's entropy stream modulo [max]. *)
Definition rand_Int (max : nat) : M nat :=
  fun w => (inr (entropy w (drawn w) mod max)%nat, with_drawn (S (drawn w)) w).

(** [charset[i]] *)
Definition charset_at (i : nat) : ascii :=
  match String.get i charset with
  | Some c => c
  | None => Ascii.zero
  end.

Fixpoint generateRandomCode (length : nat) : M string :=
  match length with
  | O => ret ""
  | S n =>
      let* randomIndex := rand_Int (String.length charset) in
      let* rest := generateRandomCode n in
      ret (String (charset_at randomIndex) rest)
  end.

(** The loop of generateUniqueCode, counted down from [maxRetries]. *)
Fixpoint generateUniqueCode_from (retries : nat) : M string :=
  match retries with
  | O => fail (errors_New "failed to generate unique code after max retries")
  | S n =>
      let* code := generateRandomCode defaultCodeLength in
      let* exists_ := repository.CodeExists code in
      if (exists_ : bool) then generateUniqueCode_from n else ret code
  end.

Definition generateUniqueCode : M string := generateUniqueCode_from maxRetries.

(** *** Character classes *)

Definition in_range (lo hi : nat) (c : ascii) : bool :=
  ((lo <=? nat_of_ascii c) && (nat_of_ascii c <=? hi))%nat.

Definition is_lower (c : ascii) : bool := in_range 97 122 c.
Definition is_upper (c : ascii) : bool := in_range 65 90 c.
Definition is_digit (c : ascii) : bool := in_range 48 57 c.
Definition is_alnum (c : ascii) : bool := is_lower c || is_upper c || is_digit c.

Fixpoint any_byte (p : ascii -> bool) (s : string) : bool :=
  match s with
  | EmptyString => false
  | String c s' => p c || any_byte p s'
  end.

(** *** Code validation *)

(** [regexp.MustCompile(`^[a-zA-Z0-9]{4,50}$`).MatchString(code)] *)
Definition isValidCode (code : string) : bool :=
  (4 <=? String.length code)%nat && (String.length code <=? 50)%nat &&
  negb (any_byte (fun c => negb (is_alnum c)) code).

(** *** Operations *)

(** What isValidURL reads of a [*url.URL]. *)
Record URL : Type := {
  Scheme : string
}.

Section Service.
(** [url.Parse] belongs to net/url, and what it accepts depends on the
    release of the library: the service is written over the parser, and
    everything proved of it holds whatever the parser answers.  A parse
    error is [None]. *)
Variable url_Parse : string -> option URL.

(** The [baseURL] field of shortCodeService. *)
Variable baseURL : string.

Definition isValidURL (rawURL : string) : bool :=
  match url_Parse rawURL with
  | None => false
  | Some u => String.eqb (Scheme u) "http" || String.eqb (Scheme u) "https"
  end.

Definition CreateShortCode (now : Z) (req : CreateShortCodeRequest)
  : M CreateShortCodeResponse :=
  (* Validate URL *)
  if negb (isValidURL (req_URL req)) then fail ErrInvalidURL
  else
    let* code :=
      (* If custom code is provided *)
      if negb (String.eqb (req_CustomCode req) "") then
        if negb (isValidCode (req_CustomCode req)) then fail ErrInvalidCode
        else
          let* exists_ := try (repository.CodeExists (req_CustomCode req)) in
          match exists_ with
          | inl err => fail (Errorf_w "failed to check code existence" err)
          | inr true => fail ErrCodeExists
          | inr false => ret (req_CustomCode req)
          end
      else
        (* Generate random code *)
        let* generated := try generateUniqueCode in
        match generated with
        | inl err => fail (Errorf_w "failed to generate unique code" err)
        | inr code => ret code
        end in
    (* Calculate expiration time *)
    let expiresAt :=
      if 0 <? req_ExpiresIn req
      then Some (now + Duration_mul (req_ExpiresIn req) Hour)
      else None in
    (* Create short code *)
    let shortCode :=
      ShortCode.mk 0 code (req_URL req) 0 0 expiresAt 0 None None in
    let* created := try (repository.Create now shortCode) in
    match created with
    | inl err => fail (Errorf_w "failed to create short code" err)
    | inr stored =>
        ret {| resp_ShortCode := code;
               resp_ShortURL := baseURL +:+ "/" +:+ code;
               resp_OriginalURL := req_URL req;
               resp_CreatedAt := ShortCode.CreatedAt stored;
               resp_ExpiresAt := expiresAt |}
    end.

Definition GetOriginalURL (now : Z) (code : string) : M string :=
  let* found := try (repository.GetByCode now code) in
  match found with
  | inl _ => fail ErrCodeNotFound
  | inr shortCode => ret (ShortCode.OriginalURL shortCode)
  end.

Definition GetStats (code : string) : M ShortCodeStats :=
  let* found := try (repository.GetStats code) in
  match found with
  | inl _ => fail ErrCodeNotFound
  | inr stats => ret stats
  end.

Definition DeleteShortCode (now : Z) (code : string) : M unit :=
  repository.Delete now code.

Definition GetDetailedStats (now : Z) (code : string) (hours : Z) : M DetailedStats :=
  let* found := try (repository.GetDetailedStats now code hours) in
  match found with
  | inl _ => fail ErrCodeNotFound
  | inr stats => ret stats
  end.

End Service.

End service.

(** ** Package api: handlers

    A handler is modelled from the point where gin has bound the request:
    it calls the service and chooses the status and the body of the reply. *)

Module api.

Record ErrorResponse : Type := {
  Error : string;
  Message : string
}.

Inductive Reply (A : Type) : Type :=
| JSON_error (status : Z) (body : ErrorResponse)
| JSON_ok (status : Z) (body : A).
Arguments JSON_error {A} status body.
Arguments JSON_ok {A} status body.

Definition StatusOK : Z := 200.
Definition StatusCreated : Z := 201.
Definition StatusBadRequest : Z := 400.
Definition StatusNotFound : Z := 404.
Definition StatusConflict : Z := 409.
Definition StatusInternalServerError : Z := 500.

Definition status {A} (r : Reply A) : Z :=
  match r with
  | JSON_error s _ => s
  | JSON_ok s _ => s
  end.

Definition not_found_reply {A} : Reply A :=
  JSON_error StatusNotFound
    {| Error := "not_found"; Message := "Short code not found" |}.

Section Handler.
Variable url_Parse : string -> option service.URL.
Variable baseURL : string.

(** [time.ParseDuration] and [int(d.Hours())] belong to package time and
    to the language: the handler is parametric in them.  A parse error is
    [None]; a duration is its count of nanoseconds. *)
Variable time_ParseDuration : string -> option Z.
Variable Hours_int : Z -> Z.

Definition CreateShortCode (now : Z) (req : CreateShortCodeRequest)
  : M (Reply CreateShortCodeResponse) :=
  let* r := try (service.CreateShortCode url_Parse baseURL now req) in
  match r with
  | inl err =>
      if errors_Is err ErrInvalidURL then
        ret (JSON_error StatusBadRequest
               {| Error := "invalid_url";
                  Message := "The provided URL is not valid" |})
      else if errors_Is err ErrCodeExists then
        ret (JSON_error StatusConflict
               {| Error := "code_exists";
                  Message := "The custom code already exists" |})
      else if errors_Is err ErrInvalidCode then
        ret (JSON_error StatusBadRequest
               {| Error := "invalid_code";
                  Message := "The code format is invalid (4-50 alphanumeric characters)" |})
      else
        ret (JSON_error StatusInternalServerError
               {| Error := "internal_error";
                  Message := "Failed to create short code" |})
  | inr resp => ret (JSON_ok StatusCreated resp)
  end.

(** The [hours] query parameter (default to 0 = all time). *)
Definition hours_of_query (hoursParam : string) : Z :=
  if negb (String.eqb hoursParam "") then
    match time_ParseDuration (hoursParam +:+ "h") with
    | Some h => Hours_int h
    | None => 0
    end
  else 0.

Definition GetDetailedStats (now : Z) (code hoursParam : string)
  : M (Reply DetailedStats) :=
  let hours := hours_of_query hoursParam in
  let* r := try (service.GetDetailedStats now code hours) in
  match r with
  | inl _ => ret not_found_reply
  | inr stats => ret (JSON_ok StatusOK stats)
  end.

End Handler.

End api.

(** ** The library behind the [hours] parameter

    The handler of the detailed statistics receives [time.ParseDuration] and
    [int(d.Hours())] as parameters.  What they compute is fixed by the Go
    library and the language, and is given here, so that the parameter can
    be followed from the query string to the query.

    *** float64

    IEEE 754 binary64 with round to nearest, ties to even, as specified by
    the standard library's [SpecFloat]. *)

Module float64.

Definition t : Type := SpecFloat.spec_float.

(** [float64(n)] for an integer [n] *)
Definition of_Z (n : Z) : t := SpecFloat.binary_normalize 53 1024 n 0 false.

Definition add : t -> t -> t := SpecFloat.SFadd 53 1024.
Definition mul : t -> t -> t := SpecFloat.SFmul 53 1024.
Definition div : t -> t -> t := SpecFloat.SFdiv 53 1024.

(** [int(x)], [uint64(x)]: the fraction is discarded.  The language leaves
    the result open for a NaN, an infinity or a value out of range; none of
    them arises below, and the model answers 0. *)
Definition to_Z (x : t) : Z :=
  match x with
  | SpecFloat.S754_finite s m e =>
      let magnitude := if e <? 0 then Z.pos m / 2 ^ (- e) else Z.pos m * 2 ^ e in
      if s then - magnitude else magnitude
  | _ => 0
  end.

End float64.

(** *** Package time: ParseDuration and Duration.Hours *)

Module gotime.

Definition is_digit (c : ascii) : bool :=
  ((48 <=? nat_of_ascii c) && (nat_of_ascii c <=? 57))%nat.

(** [uint64(c) - '0'] *)
Definition digit (c : ascii) : Z := Z.of_nat (nat_of_ascii c) - 48.

(** [leadingInt]: the loop over the leading digits, with [x] the value read
    so far; [None] is [errLeadingInt]. *)
Fixpoint leadingInt_from (x : Z) (s : string) : option (Z * string) :=
  match s with
  | String c rest =>
      if is_digit c then
        if 2 ^ 63 / 10 <? x then None
        else
          let x' := x * 10 + digit c in
          if 2 ^ 63 <? x' then None else leadingInt_from x' rest
      else Some (x, s)
  | EmptyString => Some (x, s)
  end.

Definition leadingInt (s : string) : option (Z * string) := leadingInt_from 0 s.

(** [leadingFraction]: digits beyond what fits are read and dropped. *)
Fixpoint leadingFraction_from (x : Z) (scale : float64.t) (overflow : bool)
    (s : string) : Z * float64.t * string :=
  match s with
  | String c rest =>
      if is_digit c then
        if overflow then leadingFraction_from x scale true rest
        else if (2 ^ 63 - 1) / 10 <? x then leadingFraction_from x scale true rest
        else
          let y := x * 10 + digit c in
          if 2 ^ 63 <? y then leadingFraction_from x scale true rest
          else leadingFraction_from y (float64.mul scale (float64.of_Z 10)) false rest
      else (x, scale, s)
  | EmptyString => (x, scale, s)
  end.

Definition leadingFraction (s : string) : Z * float64.t * string :=
  leadingFraction_from 0 (float64.of_Z 1) false s.

(** The unit: the bytes up to the first ['.'] or digit, and what follows. *)
Fixpoint unit_span (s : string) : string * string :=
  match s with
  | String c rest =>
      if Ascii.eqb c "." || is_digit c then (EmptyString, s)
      else let '(u, s') := unit_span rest in (String c u, s')
  | EmptyString => (EmptyString, EmptyString)
  end.

Definition micro_sign : string :=     (* U+00B5 in UTF-8 *)
  String (ascii_of_nat 194) (String (ascii_of_nat 181) EmptyString).
Definition greek_mu : string :=       (* U+03BC in UTF-8 *)
  String (ascii_of_nat 206) (String (ascii_of_nat 188) EmptyString).

Definition unitMap (u : string) : option Z :=
  if String.eqb u "ns" then Some 1
  else if String.eqb u "us" then Some 1000
  else if String.eqb u (micro_sign +:+ "s") then Some 1000
  else if String.eqb u (greek_mu +:+ "s") then Some 1000
  else if String.eqb u "ms" then Some 1000000
  else if String.eqb u "s" then Some 1000000000
  else if String.eqb u "m" then Some 60000000000
  else if String.eqb u "h" then Some Hour
  else None.

(** One round of the loop [for s != ""]: a number, an optional fraction and
    a unit are taken off [s] and added to [d].  [None] is an error. *)
Definition parse_term (s : string) (d : Z) : option (string * Z) :=
  match s with
  | EmptyString => None
  | String c _ =>
      (* The next character must be [0-9.] *)
      if negb (Ascii.eqb c "." || is_digit c) then None
      else
        (* Consume the integer part *)
        match leadingInt s with
        | None => None
        | Some (v, s1) =>
            let pre := negb (String.length s =? String.length s1)%nat in
            (* Consume the fraction, if any *)
            let '(f, scale, s2, post) :=
              match s1 with
              | String "." rest =>
                  let '(f, scale, s2) := leadingFraction rest in
                  (f, scale, s2, negb (String.length rest =? String.length s2)%nat)
              | _ => (0, float64.of_Z 1, s1, false)
              end in
            if negb pre && negb post then None
            else
              (* Consume unit. *)
              let '(u, s3) := unit_span s2 in
              if String.eqb u "" then None
              else
                match unitMap u with
                | None => None
                | Some unit =>
                    if 2 ^ 63 / unit <? v then None
                    else
                      let v1 := v * unit in
                      let v2 :=
                        if 0 <? f
                        then (v1 + float64.to_Z
                                     (float64.mul (float64.of_Z f)
                                        (float64.div (float64.of_Z unit) scale)))
                             mod 2 ^ 64
                        else v1 in
                      if (0 <? f) && (2 ^ 63 <? v2) then None
                      else
                        let d' := (d + v2) mod 2 ^ 64 in
                        if 2 ^ 63 <? d' then None else Some (s3, d')
                end
        end
  end.

(** The loop.  Every round takes at least one byte off the string, so
    [fuel] above its length is never used up. *)
Fixpoint parse_terms (fuel : nat) (s : string) (d : Z) : option Z :=
  match fuel with
  | O => None
  | S fuel' =>
      if String.eqb s "" then Some d
      else
        match parse_term s d with
        | None => None
        | Some (s', d') => parse_terms fuel' s' d'
        end
  end.


(** [Duration.Hours]: [float64(d / Hour) + float64(d % Hour) / (60*60*1e9)] *)
Definition Hours (d : Z) : float64.t :=
  let hour := d `quot` Hour in
  let nsec := d `rem` Hour in
  float64.add (float64.of_Z hour)
              (float64.div (float64.of_Z nsec) (float64.of_Z (60 * 60 * 1000000000))).

(** [int(d.Hours())] *)
Definition Hours_int (d : Z) : Z := float64.to_Z (Hours d).

End gotime.

(** ** The rate limiter (package api, middleware)

    [Allow] and the periodic sweep run under the limiter's mutex, so each is
    one atomic step on the visitor table. *)

Module RateLimiter.

Record visitor : Type := {
  requests : Z;
  resetTime : Z
}.

Record t : Type := {
  visitors : gmap string visitor;
  rate : Z;
  window : Z
}.

Definition NewRateLimiter (rate window : Z) : t :=
  {| visitors := ∅; rate := rate; window := window |}.

Definition with_visitors (m : gmap string visitor) (rl : t) : t :=
  {| visitors := m; rate := rate rl; window := window rl |}.

(** [now.After(v.resetTime)] *)
Definition After (now reset : Z) : bool := reset <? now.

Definition Allow (now : Z) (ip : string) (rl : t) : bool * t :=
  let fresh :=
    (true, with_visitors
             (<[ip := {| requests := 1; resetTime := now + window rl |}]> (visitors rl))
             rl) in
  match visitors rl !! ip with
  | None => fresh
  | Some v =>
      if After now (resetTime v) then fresh
      else if requests v <? rate rl then
        (true, with_visitors
                 (<[ip := {| requests := requests v + 1; resetTime := resetTime v |}]>
                    (visitors rl))
                 rl)
      else (false, rl)
  end.

(** One tick of cleanupVisitors. *)
Definition cleanupVisitors (now : Z) (rl : t) : t :=
  with_visitors
    (filter (fun kv => negb (After now (resetTime kv.2)) = true) (visitors rl))
    rl.

(** What happens to a limiter over time: admission checks and sweeps. *)
Inductive event : Type :=
| Check (now : Z) (ip : string)
| Sweep (now : Z).

Definition at_time (e : event) : Z :=
  match e with
  | Check now _ => now
  | Sweep now => now
  end.

(** Run the events in order; collect the verdict of every check. *)
Fixpoint run (evs : list event) (rl : t) : list (string * bool) * t :=
  match evs with
  | [] => ([], rl)
  | Check now ip :: evs' =>
      let '(ok, rl') := Allow now ip rl in
      let '(verdicts, rl'') := run evs' rl' in
      ((ip, ok) :: verdicts, rl'')
  | Sweep now :: evs' => run evs' (cleanupVisitors now rl)
  end.

(** The verdicts given to one client, in order. *)
Definition verdicts_of (ip : string) (vs : list (string * bool)) : list bool :=
  map snd (List.filter (fun v => String.eqb v.1 ip) vs).

(** How many admission checks a client makes in a run. *)
Definition checks_by (ip : string) (evs : list event) : nat :=
  length (List.filter
            (fun e => match e with
                      | Check _ ip' => String.eqb ip' ip
                      | Sweep _ => false
                      end) evs).

End RateLimiter.

(** ** Invariants of the stored state *)

(** The unique index on [short_codes.code]. *)
Definition codes_unique (w : World) : Prop :=
  NoDup (map ShortCode.Code (short_codes w)).

(** A cached short code was read from the table: its code names a row. *)
Definition cache_from_table (w : World) : Prop :=
  forall code entry,
    redis w !! repository.cacheKey code = Some entry ->
    In code (map ShortCode.Code (short_codes w)).

(** The aggregation key of an access-statistics row. *)
Definition bucket (r : AccessStatistics.t) : Z * string * Z :=
  (AccessStatistics.ShortCodeID r, AccessStatistics.IPAddress r,
   AccessStatistics.HourBucket r).

(** At most one row per (code, IP, hour). *)
Definition one_row_per_bucket (l : list AccessStatistics.t) : Prop :=
  NoDup (map bucket l).

(** The primary key of access_statistics: ids are distinct and were all
    handed out by the sequence. *)
Definition primary_key_ok (w : World) : Prop :=
  NoDup (map AccessStatistics.ID (access_statistics w)) /\
  Forall (fun r => AccessStatistics.ID r <= access_statistics_seq w)
         (access_statistics w).

(** The access count recorded for a bucket: the sum over its rows. *)
Definition count_of (s : AccessStatistics.t) (l : list AccessStatistics.t) : Z :=
  sum_AccessCount (List.filter (same_bucket s) l).

(** The increment of the row with primary key [id], as
    [db_Increment_access_count] applies it to every row. *)
Definition bump (id : Z) (r : AccessStatistics.t) : AccessStatistics.t :=
  if AccessStatistics.ID r =? id
  then AccessStatistics.with_AccessCount (AccessStatistics.AccessCount r + 1) r
  else r.

(** The row that RecordAccessStats inserts for a struct without primary key:
    the next id of the sequence, the fields of the struct, access count 1. *)
Definition appended_row (now : Z) (stats : AccessStatistics.t) (w : World)
  : AccessStatistics.t :=
  AccessStatistics.mk (access_statistics_seq w + 1)
    (AccessStatistics.ShortCodeID stats) (AccessStatistics.IPAddress stats)
    (AccessStatistics.Country stats) (AccessStatistics.Region stats)
    (AccessStatistics.City stats) (AccessStatistics.HourBucket stats) 1
    (if AccessStatistics.CreatedAt stats =? 0 then now
     else AccessStatistics.CreatedAt stats)
    (if AccessStatistics.UpdatedAt stats =? 0 then now
     else AccessStatistics.UpdatedAt stats).

(** A sequence of calls of RecordAccessStats, each at its own time. *)
Fixpoint RecordAccessStats_each (calls : list (Z * AccessStatistics.t)) (w : World)
  : World :=
  match calls with
  | [] => w
  | (now, stats) :: rest =>
      RecordAccessStats_each rest (repository.RecordAccessStats now stats w).2
  end.

(** How many calls of a sequence fall into the bucket of [s]. *)
Definition calls_in_bucket (s : AccessStatistics.t)
    (calls : list (Z * AccessStatistics.t)) : Z :=
  Z.of_nat (length (List.filter (fun c => same_bucket c.2 s) calls)).

(** A live row carries the code: what CodeExists looks for. *)
Definition code_live (code : string) (w : World) : bool :=
  existsb (fun r => has_code code r && live r) (short_codes w).

(** Some row, live or soft-deleted, carries the code: what the unique index
    looks for. *)
Definition code_taken (code : string) (w : World) : bool :=
  existsb (has_code code) (short_codes w).

(** What a read of the cache at [now] yields for a code: a short code when the
    key is present, not timed out and decodable. *)
Definition cache_lookup (now : Z) (code : string) (w : World) : option ShortCode.t :=
  match redis w !! repository.cacheKey code with
  | Some (v, expiry) => if now <? expiry then json_Unmarshal v else None
  | None => None
  end.

(** The world after a command has been logged. *)
Definition logged (op : StorageOp) (w : World) : World :=
  with_oplog (oplog w ++ [op]) w.

(** The code that generateRandomCode builds from the entropy stream [e],
    starting at draw number [start]. *)
Fixpoint code_from (e : nat -> nat) (start length : nat) : string :=
  match length with
  | O => EmptyString
  | S n =>
      String (service.charset_at (e start mod String.length service.charset)%nat)
             (code_from e (S start) n)
  end.

(** The [k]-th candidate that generateUniqueCode draws in a world. *)
Definition candidate (w : World) (k : nat) : string :=
  code_from (entropy w) (drawn w + service.defaultCodeLength * k)
            service.defaultCodeLength.

(** The pattern [^[A-Za-z0-9]{6}$]. *)
Definition matches_alnum6 (code : string) : bool :=
  (String.length code =? 6)%nat &&
  negb (service.any_byte (fun c => negb (service.is_alnum c)) code).

(** The tables, the cache and the random source are as before. *)
Definition untouched (w w' : World) : Prop :=
  short_codes w' = short_codes w /\
  short_codes_seq w' = short_codes_seq w /\
  click_logs w' = click_logs w /\
  access_statistics w' = access_statistics w /\
  access_statistics_seq w' = access_statistics_seq w /\
  redis w' = redis w /\
  redis_faults w' = redis_faults w /\
  entropy w' = entropy w /\
  click_logs_seq w' = click_logs_seq w.

(** The two halves of the body of CreateShortCode after the URL check,
    named so that lemmas can speak about them: the choice of the code, and
    the write of the record. *)
Definition select_code (req : CreateShortCodeRequest) : M string :=
  if negb (String.eqb (req_CustomCode req) "") then
    if negb (service.isValidCode (req_CustomCode req)) then fail ErrInvalidCode
    else
      let* exists_ := try (repository.CodeExists (req_CustomCode req)) in
      match exists_ with
      | inl err => fail (Errorf_w "failed to check code existence" err)
      | inr true => fail ErrCodeExists
      | inr false => ret (req_CustomCode req)
      end
  else
    let* generated := try service.generateUniqueCode in
    match generated with
    | inl err => fail (Errorf_w "failed to generate unique code" err)
    | inr code => ret code
    end.

Definition expiry_of (now : Z) (req : CreateShortCodeRequest) : option Z :=
  if 0 <? req_ExpiresIn req
  then Some (now + Duration_mul (req_ExpiresIn req) Hour)
  else None.

Definition persist (baseURL : string) (now : Z) (req : CreateShortCodeRequest)
    (code : string) : M CreateShortCodeResponse :=
  let* created :=
    try (repository.Create now
           (ShortCode.mk 0 code (req_URL req) 0 0 (expiry_of now req) 0 None None)) in
  match created with
  | inl err => fail (Errorf_w "failed to create short code" err)
  | inr stored =>
      ret {| resp_ShortCode := code;
             resp_ShortURL := baseURL +:+ "/" +:+ code;
             resp_OriginalURL := req_URL req;
             resp_CreatedAt := ShortCode.CreatedAt stored;
             resp_ExpiresAt := expiry_of now req |}
  end.

(** The row that a successful creation stores. *)
Definition stored_row (now : Z) (req : CreateShortCodeRequest) (code : string)
    (w : World) : ShortCode.t :=
  ShortCode.mk (short_codes_seq w + 1) code (req_URL req) now now
               (expiry_of now req) 0 None None.

(** The soft delete of the live rows with a code. *)
Definition mark_deleted (now : Z) (code : string) (r : ShortCode.t) : ShortCode.t :=
  if has_code code r && live r then ShortCode.with_DeletedAt (Some now) r else r.

(** How many commands of a kind a log holds. *)
Definition is_count (op : StorageOp) : bool :=
  match op with OpCountShortCode _ => true | _ => false end.

(** What the theorems below assume of a world: both backends answer, the
    unique index holds, and the cache only holds codes read from the table. *)
Definition sound (w : World) : Prop :=
  healthy w /\ codes_unique w /\ cache_from_table w.

(** A string of decimal digits, and the number it writes. *)
Fixpoint all_digits (s : string) : bool :=
  match s with
  | String c rest => gotime.is_digit c && all_digits rest
  | EmptyString => true
  end.

Fixpoint value_from (x : Z) (s : string) : Z :=
  match s with
  | String c rest => value_from (x * 10 + gotime.digit c) rest
  | EmptyString => x
  end.



(** ** Worlds used as examples *)

Definition world0 : World :=
  mkWorld [] 0 [] 0 [] 0 ∅ [] [] (fun n => n) 0%nat [].

Definition example_base : string := "http://localhost:8080".

(** A stand-in for [url.Parse] in the examples.  It knows plain strings
    only, on which the library's answer is the one given here:
    - letters, digits, ['.'], ['-'], ['_'] and ['/'] without any [':'] parse
      as a reference without scheme;
    - a scheme of letters, then ["://"], then such characters parse as a URL
      with that scheme in lower case.
    Every other string is an error here. *)
Definition is_plain (c : ascii) : bool :=
  service.is_alnum c || Ascii.eqb c "." || Ascii.eqb c "-" || Ascii.eqb c "_" ||
  Ascii.eqb c "/".

Definition lower (c : ascii) : ascii :=
  if service.is_upper c then ascii_of_nat (nat_of_ascii c + 32) else c.

(** The letters before the first [':'], in lower case, and what follows it. *)
Fixpoint plain_scheme (s : string) : option (string * string) :=
  match s with
  | EmptyString => None
  | String c rest =>
      if Ascii.eqb c ":" then Some (EmptyString, rest)
      else if service.is_lower c || service.is_upper c then
        match plain_scheme rest with
        | Some (scheme, rest') => Some (String (lower c) scheme, rest')
        | None => None
        end
      else None
  end.

Definition example_url_Parse (rawURL : string) : option service.URL :=
  if negb (service.any_byte (fun c => negb (is_plain c)) rawURL)
  then Some {| service.Scheme := "" |}
  else
    match plain_scheme rawURL with
    | Some (String c scheme, String "/" (String "/" rest)) =>
        if service.any_byte (fun c => negb (is_plain c)) rest then None
        else Some {| service.Scheme := String c scheme |}
    | _ => None
    end.

(** A custom code with an expiry of one hour. *)
Definition request_custom : CreateShortCodeRequest :=
  {| req_URL := "https://example.com/a"; req_CustomCode := "test1"; req_ExpiresIn := 1 |}.

(** No custom code, no expiry. *)
Definition request_auto : CreateShortCodeRequest :=
  {| req_URL := "https://example.com/a"; req_CustomCode := ""; req_ExpiresIn := 0 |}.

(** A custom code that is too short, with a URL that has a scheme and with
    one that has none. *)
Definition request_short_code : CreateShortCodeRequest :=
  {| req_URL := "https://example.com/a"; req_CustomCode := "ab"; req_ExpiresIn := 0 |}.

Definition request_short_code_bad_url : CreateShortCodeRequest :=
  {| req_URL := "not-a-valid-url"; req_CustomCode := "ab"; req_ExpiresIn := 0 |}.

(** A world whose random source always draws index 0, after the code
    ["aaaaaa"] has been created in it: every candidate is taken. *)
Definition world_saturated : World :=
  (service.CreateShortCode example_url_Parse example_base 0
     {| req_URL := "https://example.com/a"; req_CustomCode := "aaaaaa";
        req_ExpiresIn := 0 |}
     (mkWorld [] 0 [] 0 [] 0 ∅ [] [] (fun _ => 0%nat) 0%nat [])).2.

(** ["test1"] created at time 10 with one hour to live. *)
Definition world_created : World :=
  (service.CreateShortCode example_url_Parse example_base 10 request_custom world0).2.

(** ... and then deleted at time 20. *)
Definition world_deleted : World :=
  (service.DeleteShortCode 20 "test1" world_created).2.

(** ["test1"] exists, and the database fails on the second command it
    receives. *)
Definition world_stats_outage : World :=
  with_db_faults [false; true] world_created.


(** ** Click recording, metrics and the remaining handlers

    The rest of packages repository, service and api.  Their database
    commands have no name of their own in [StorageOp]; they are logged under
    [OpQueryStats] with the numbers below. *)

Definition OpUpdateClickCount : StorageOp := OpQueryStats 10.
Definition OpInsertClickLog : StorageOp := OpQueryStats 11.
Definition OpMetrics (which : nat) : StorageOp := OpQueryStats (20 + which).

(** The row after [click_count = click_count + 1, last_accessed_at = now];
    [Updates] also stamps [updated_at]. *)
Definition clicked (now : Z) (r : ShortCode.t) : ShortCode.t :=
  ShortCode.mk (ShortCode.ID r) (ShortCode.Code r) (ShortCode.OriginalURL r)
               (ShortCode.CreatedAt r) now (ShortCode.ExpiresAt r)
               (ShortCode.ClickCount r + 1) (Some now) (ShortCode.DeletedAt r).

Module repository_clicks.

(** [db.Model(&model.ShortCode{}).Where("id = ?", id).Updates(...)]: the
    soft-delete filter applies; only [.Error] is returned, not the number of
    rows. *)
Definition UpdateClickCount (now : Z) (id : Z) : M unit :=
  db_exec OpUpdateClickCount (fun w =>
    (inr tt,
     with_short_codes
       (map (fun r => if (ShortCode.ID r =? id) && live r then clicked now r else r)
            (short_codes w))
       (short_codes_seq w) w)).

(** [db.Create(log)], under the same rules as the insert into
    access_statistics: the sequence or the given id, the primary key, the
    foreign key on [short_codes.id], and the stamp of [created_at]. *)
Definition LogClick (now : Z) (log : ClickLog.t) : M unit :=
  db_exec OpInsertClickLog (fun w =>
    let auto := ClickLog.ID log =? 0 in
    let seq := if auto then click_logs_seq w + 1 else click_logs_seq w in
    let id := if auto then seq else ClickLog.ID log in
    if existsb (fun l => ClickLog.ID l =? id) (click_logs w)
    then (inl ErrDuplicateKey, with_click_logs (click_logs w) seq w)
    else if negb (references_short_code (ClickLog.ShortCodeID log) w)
    then (inl ErrBackend, with_click_logs (click_logs w) seq w)
    else
      let row := ClickLog.mk id (ClickLog.ShortCodeID log) (ClickLog.IPAddress log)
                   (ClickLog.UserAgent log) (ClickLog.Referer log)
                   (if ClickLog.CreatedAt log =? 0 then now else ClickLog.CreatedAt log) in
      (inr tt, with_click_logs (click_logs w ++ [row]) seq w)).

(** The map that GetMetrics fills, as a record of its four keys. *)
Record Metrics : Type := {
  total_codes : Z;
  total_clicks : Z;
  clicks_24h : Z;
  active_codes : Z
}.

Definition count_total_codes (w : World) : Z :=
  Z.of_nat (length (List.filter live (short_codes w))).

(** [COALESCE(SUM(click_count), 0)] *)
Definition sum_click_count (w : World) : Z :=
  foldr Z.add 0 (map ShortCode.ClickCount (List.filter live (short_codes w))).

(** [Where("created_at > ?", oneDayAgo).Count] on click_logs *)
Definition count_clicks_since (since : Z) (w : World) : Z :=
  Z.of_nat (length (List.filter (fun l => since <? ClickLog.CreatedAt l) (click_logs w))).

(** [Where("click_count > 0").Count] *)
Definition count_active_codes (w : World) : Z :=
  Z.of_nat (length (List.filter (fun r => live r && (0 <? ShortCode.ClickCount r))
                                (short_codes w))).

Definition GetMetrics (now : Z) : M Metrics :=
  (* Count total short codes *)
  let* totalCodes := db_query (OpMetrics 0) count_total_codes in
  (* Count total clicks *)
  let* totalClicks := db_query (OpMetrics 1) sum_click_count in
  (* Count clicks in the past 24 hours *)
  let oneDayAgo := now + Duration_mul (-24) Hour in
  let* clicks24h := db_query (OpMetrics 2) (count_clicks_since oneDayAgo) in
  (* Count active short codes (with clicks) *)
  let* activeCodes := db_query (OpMetrics 3) count_active_codes in
  ret {| total_codes := totalCodes;
         total_clicks := totalClicks;
         clicks_24h := clicks24h;
         active_codes := activeCodes |}.

End repository_clicks.

Module service_clicks.

Record IPLocation : Type := {
  Country : string;
  Region : string;
  City : string
}.

Definition privateRanges : list string :=
  ["10."; "172.16."; "172.17."; "172.18."; "172.19.";
   "172.20."; "172.21."; "172.22."; "172.23."; "172.24.";
   "172.25."; "172.26."; "172.27."; "172.28."; "172.29.";
   "172.30."; "172.31."; "192.168."; "127."].

(** [len(ip) >= len(prefix) && ip[:len(prefix)] == prefix] *)
Definition starts_with (ip prefix : string) : bool :=
  (String.length prefix <=? String.length ip)%nat &&
  String.eqb (String.substring 0 (String.length prefix) ip) prefix.

Definition isPrivateIP (ip : string) : bool :=
  (* Simple check for common private IP ranges and localhost *)
  if String.eqb ip "" || String.eqb ip "::1" || String.eqb ip "localhost" then true
  else existsb (starts_with ip) privateRanges.

(** The body that ip-api.com answers with, once decoded. *)
Record GeoResult : Type := {
  Status : string;
  geo_Country : string;
  RegionName : string;
  geo_City : string
}.

Section Geolocation.
(** The HTTP client and the JSON decoder are library code.  [http_Get url] is
    [None] when the request fails or times out, otherwise the status code and
    the body, which is [None] when it cannot be read; [decode] is
    [json.Unmarshal] into the result struct. *)
Variable http_Get : string -> option (Z * option string).
Variable decode : string -> option GeoResult.

Definition apiURL (ipAddress : string) : string :=
  "http://ip-api.com/json/" +:+ ipAddress +:+ "?fields=status,country,regionName,city".

Definition getIPLocation (ipAddress : string) : IPLocation :=
  (* Default location *)
  let location := {| Country := "Unknown"; Region := "Unknown"; City := "Unknown" |} in
  (* Skip for local/private IPs *)
  if isPrivateIP ipAddress
  then {| Country := "Private"; Region := "Local"; City := "Local" |}
  else
    match http_Get (apiURL ipAddress) with
    | None => location
    | Some (statusCode, body) =>
        if negb (statusCode =? 200) then location
        else
          match body with
          | None => location
          | Some bytes =>
              match decode bytes with
              | None => location
              | Some result =>
                  if String.eqb (Status result) "success" then
                    {| Country := if negb (String.eqb (geo_Country result) "")
                                  then geo_Country result else Country location;
                       Region := if negb (String.eqb (RegionName result) "")
                                 then RegionName result else Region location;
                       City := if negb (String.eqb (geo_City result) "")
                               then geo_City result else City location |}
                  else location
              end
          end
    end.

Definition RecordClick (now : Z) (code ipAddress userAgent referer : string) : M unit :=
  let* found := try (repository.GetByCode now code) in
  match found with
  | inl err => fail (Errorf_w "failed to get short code" err)
  | inr shortCode =>
      (* Update click count *)
      let* updated := try (repository_clicks.UpdateClickCount now (ShortCode.ID shortCode)) in
      match updated with
      | inl err => fail (Errorf_w "failed to update click count" err)
      | inr _ =>
          (* Record click log *)
          let log := ClickLog.mk 0 (ShortCode.ID shortCode) ipAddress userAgent referer 0 in
          let* logged_ := try (repository_clicks.LogClick now log) in
          match logged_ with
          | inl err => fail (Errorf_w "failed to log click" err)
          | inr _ =>
              (* Get IP location information *)
              let location := getIPLocation ipAddress in
              (* Record access statistics with hourly bucket *)
              let hourBucket := Truncate now Hour in
              let stats :=
                AccessStatistics.mk 0 (ShortCode.ID shortCode) ipAddress
                  (Country location) (Region location) (City location)
                  hourBucket 0 0 0 in
              let* recorded := try (repository.RecordAccessStats now stats) in
              match recorded with
              | inl err => fail (Errorf_w "failed to record access stats" err)
              | inr _ => ret tt
              end
          end
      end
  end.

End Geolocation.

Definition GetMetrics (now : Z) : M repository_clicks.Metrics :=
  repository_clicks.GetMetrics now.

End service_clicks.

Module handlers.

Definition StatusMovedPermanently : Z := 301.
Definition StatusTooManyRequests : Z := 429.

(** What a handler hands to gin: a JSON reply, or a redirect. *)
Inductive Response (A : Type) : Type :=
| Reply (r : api.Reply A)
| Redirect (status : Z) (location : string).
Arguments Reply {A} r.
Arguments Redirect {A} status location.

(** RedirectToOriginal, up to the reply: the click is recorded by a goroutine
    that the handler starts and does not wait for. *)
Definition RedirectToOriginal (now : Z) (code : string) : M (Response unit) :=
  let* r := try (service.GetOriginalURL now code) in
  match r with
  | inl _ =>
      ret (Reply (api.JSON_error api.StatusNotFound
                    {| api.Error := "not_found";
                       api.Message := "Short code not found or expired" |}))
  | inr originalURL => ret (Redirect StatusMovedPermanently originalURL)
  end.

Definition GetStats (code : string) : M (api.Reply ShortCodeStats) :=
  let* r := try (service.GetStats code) in
  match r with
  | inl _ => ret api.not_found_reply
  | inr stats => ret (api.JSON_ok api.StatusOK stats)
  end.

Definition DeleteShortCode (now : Z) (code : string) : M (api.Reply string) :=
  let* r := try (service.DeleteShortCode now code) in
  match r with
  | inl _ => ret api.not_found_reply
  | inr _ => ret (api.JSON_ok api.StatusOK "Short code deleted successfully")
  end.

Definition Metrics (now : Z) : M (api.Reply repository_clicks.Metrics) :=
  let* r := try (service_clicks.GetMetrics now) in
  match r with
  | inl _ =>
      ret (api.JSON_error api.StatusInternalServerError
             {| api.Error := "internal_error";
                api.Message := "Failed to fetch metrics" |})
  | inr metrics => ret (api.JSON_ok api.StatusOK metrics)
  end.

End handlers.

(** ** Predicates and examples for the properties of this part *)

(** An IPv4 address in dotted decimal notation. *)
Definition decimal (n : nat) : string := NilZero.string_of_uint (Nat.to_uint n).

Definition dotted (a b c d : nat) : string :=
  decimal a +:+ "." +:+ decimal b +:+ "." +:+ decimal c +:+ "." +:+ decimal d.

(** 10.0.0.0/8, 172.16.0.0/12, 192.168.0.0/16 and 127.0.0.0/8. *)
Definition private_or_loopback (a b : nat) : bool :=
  ((a =? 10) || ((a =? 172) && (16 <=? b) && (b <=? 31)) ||
   ((a =? 192) && (b =? 168)) || (a =? 127))%nat.

(** A cached short code is a copy of a row: same code, same id. *)
Definition cache_mirrors_table (w : World) : Prop :=
  forall code sc expiry,
    redis w !! repository.cacheKey code = Some (JSON_ShortCode sc, expiry) ->
    exists r, In r (short_codes w) /\
              ShortCode.Code r = code /\ ShortCode.ID r = ShortCode.ID sc.

(** The primary key of short_codes. *)
Definition ids_unique (w : World) : Prop :=
  NoDup (map ShortCode.ID (short_codes w)).

(** The click counter stored for a code. *)
Definition clicks_of (code : string) (w : World) : Z :=
  foldr Z.add 0
    (map ShortCode.ClickCount
         (List.filter (fun r => has_code code r && live r) (short_codes w))).

(** How many log rows a code id has. *)
Definition logs_of (id : Z) (w : World) : Z :=
  Z.of_nat (length (List.filter (fun l => ClickLog.ShortCodeID l =? id) (click_logs w))).

(** Only checks and sweeps that concern one client. *)
Definition concerns (ip : string) (e : RateLimiter.event) : bool :=
  match e with
  | RateLimiter.Check _ ip' => String.eqb ip' ip
  | RateLimiter.Sweep _ => true
  end.

(** rateLimitMiddleware: the status it aborts with, or [None] when it lets
    the request through. *)
Definition rateLimitMiddleware (now : Z) (ip : string) (limiter : RateLimiter.t)
  : option Z * RateLimiter.t :=
  let '(ok, limiter') := RateLimiter.Allow now ip limiter in
  if negb ok then (Some handlers.StatusTooManyRequests, limiter')
  else (None, limiter').

(** * Properties *)

(** ** The monad *)

Ltac run_step :=
  cbv beta iota zeta delta
    [bind try ret fail log db_exec db_query db_fault redis_fault];
  simpl.

(** ** RateLimiter *)

Module RateLimiterFacts.
Import RateLimiter.

Lemma Allow_fresh now ip rl :
  (visitors rl !! ip = None \/
   exists v, visitors rl !! ip = Some v /\ resetTime v < now) ->
  Allow now ip rl =
    (true, with_visitors
             (<[ip := {| requests := 1; resetTime := now + window rl |}]> (visitors rl))
             rl).
Proof.
  unfold Allow. intros [-> | (v & -> & Hv)]; [reflexivity|].
  unfold After. destruct (Z.ltb_spec (resetTime v) now); [reflexivity | lia].
Qed.

Lemma Allow_params now ip rl :
  rate (Allow now ip rl).2 = rate rl /\ window (Allow now ip rl).2 = window rl.
Proof.
  unfold Allow. destruct (visitors rl !! ip) as [v|]; [|done].
  destruct (After now (resetTime v)); [done|].
  destruct (requests v <? rate rl); done.
Qed.

Lemma Allow_other now ip ip' rl :
  ip' <> ip -> visitors (Allow now ip' rl).2 !! ip = visitors rl !! ip.
Proof.
  intros Hne. unfold Allow. destruct (visitors rl !! ip') as [v|]; simpl.
  - destruct (After now (resetTime v)); simpl; [by rewrite lookup_insert_ne|].
    destruct (requests v <? rate rl); simpl; [by rewrite lookup_insert_ne | done].
  - by rewrite lookup_insert_ne.
Qed.

(** Inside its window a client with [n] requests counted is admitted
    exactly while [n] is below the rate. *)
Lemma Allow_within now ip rl n T :
  visitors rl !! ip = Some {| requests := n; resetTime := T |} ->
  now <= T ->
  Allow now ip rl =
    if n <? rate rl
    then (true, with_visitors
                  (<[ip := {| requests := n + 1; resetTime := T |}]> (visitors rl)) rl)
    else (false, rl).
Proof.
  intros Hv Hnow. unfold Allow. rewrite Hv. simpl. unfold After.
  destruct (Z.ltb_spec T now); [lia | reflexivity].
Qed.

Lemma cleanupVisitors_keeps now ip rl v :
  visitors rl !! ip = Some v -> now <= resetTime v ->
  visitors (cleanupVisitors now rl) !! ip = Some v.
Proof.
  intros Hv Hnow. unfold cleanupVisitors. simpl.
  apply map_lookup_filter_Some. split; [done|]. simpl. unfold After.
  destruct (Z.ltb_spec (resetTime v) now); [lia | reflexivity].
Qed.

Lemma run_params evs : forall rl,
  rate (run evs rl).2 = rate rl /\ window (run evs rl).2 = window rl.
Proof.
  induction evs as [|[now ip|now] evs IH]; intros rl; simpl; [done| |].
  - destruct (Allow now ip rl) as [ok rl'] eqn:HA.
    destruct (run evs rl') as [vs rl''] eqn:HR. simpl.
    pose proof (IH rl') as IH'. rewrite HR in IH'. simpl in IH'.
    pose proof (Allow_params now ip rl) as HP. rewrite HA in HP. simpl in HP.
    destruct IH', HP. split; congruence.
  - apply (IH (cleanupVisitors now rl)).
Qed.

(** The window of a client is not touched by what happens before it ends:
    the verdicts follow the counter, and the reset time stays. *)
Lemma run_within ip evs : forall rl n T,
  visitors rl !! ip = Some {| requests := n; resetTime := T |} ->
  Forall (fun e => at_time e <= T) evs ->
  (forall i b, verdicts_of ip (run evs rl).1 !! i = Some b ->
               b = bool_decide (n + Z.of_nat i < rate rl)) /\
  (exists n', visitors (run evs rl).2 !! ip
              = Some {| requests := n'; resetTime := T |}).
Proof.
  induction evs as [|[now ip'|now] evs IH]; intros rl n T Hv Hall; simpl.
  - split; [intros i b; unfold verdicts_of; simpl; by rewrite lookup_nil | eauto].
  - apply Forall_cons in Hall as [Hnow Hall]. simpl in Hnow.
    destruct (Allow now ip' rl) as [ok rl'] eqn:HA.
    destruct (run evs rl') as [vs rl''] eqn:HR.
    unfold verdicts_of. simpl.
    destruct (String.eqb_spec ip' ip) as [->|Hne]; simpl.
    + rewrite (Allow_within now ip rl n T Hv Hnow) in HA.
      destruct (Z.ltb_spec n (rate rl)) as [Hlt|Hge]; inversion HA; subst ok rl'; clear HA.
      * destruct (IH (with_visitors
                        (<[ip:={| requests := n + 1; resetTime := T |}]> (visitors rl)) rl)
                     (n + 1) T) as [IHv IHs]; [by simpl; rewrite lookup_insert_eq | done |].
        rewrite HR in IHv, IHs. simpl in IHv, IHs. split; [|done].
        intros [|i] b Hb; simpl in Hb.
        -- inversion Hb. symmetry. apply bool_decide_eq_true. lia.
        -- apply IHv in Hb. subst b. apply bool_decide_ext. lia.
      * destruct (IH rl n T Hv Hall) as [IHv IHs].
        rewrite HR in IHv, IHs. simpl in IHv, IHs. split; [|done].
        intros [|i] b Hb; simpl in Hb.
        -- inversion Hb. symmetry. apply bool_decide_eq_false. lia.
        -- apply IHv in Hb. subst b.
           rewrite !(bool_decide_eq_false_2); [done | lia | lia].
    + pose proof (Allow_other now ip ip' rl Hne) as Ho. rewrite HA in Ho. simpl in Ho.
      pose proof (Allow_params now ip' rl) as [Hr _]. rewrite HA in Hr. simpl in Hr.
      destruct (IH rl' n T) as [IHv IHs]; [by rewrite Ho | done |].
      rewrite HR in IHv, IHs. simpl in IHv, IHs. rewrite Hr in IHv. done.
  - apply Forall_cons in Hall as [Hnow Hall]. simpl in Hnow.
    apply (IH (cleanupVisitors now rl) n T); [|done].
    by apply cleanupVisitors_keeps.
Qed.

Lemma run_verdicts_length ip evs : forall rl,
  length (verdicts_of ip (run evs rl).1) = checks_by ip evs.
Proof.
  induction evs as [|[now ip'|now] evs IH]; intros rl; simpl; [done| |].
  - destruct (Allow now ip' rl) as [ok rl'] eqn:HA.
    destruct (run evs rl') as [vs rl''] eqn:HR.
    specialize (IH rl'). rewrite HR in IH. simpl in IH.
    unfold verdicts_of, checks_by in *. simpl.
    destruct (String.eqb ip' ip); simpl; by rewrite IH.
  - apply IH.
Qed.

End RateLimiterFacts.

(** C5 (as amended).  Fixed-window rate limiting, for a rate of at least one.
    A client that has no entry, or whose window has elapsed, makes a check at
    [t0]; whatever checks (of any client) and sweeps follow up to the end of
    the window [t0 + window], the client's [i]-th check (counting from 0, the
    one at [t0] included) is admitted exactly when [i < rate]: the first
    [rate] checks are admitted, check number [rate + 1] and all later ones are
    rejected.  Every check of the run gets a verdict.  A check made after the
    window has elapsed is admitted and starts a fresh window with count 1. *)
Theorem RateLimiter_fixed_window
    (rl : RateLimiter.t) (ip : string) (t0 : Z) (evs : list RateLimiter.event) :
  1 <= RateLimiter.rate rl ->
  (RateLimiter.visitors rl !! ip = None \/
   exists v, RateLimiter.visitors rl !! ip = Some v /\ RateLimiter.resetTime v < t0) ->
  Forall (fun e => RateLimiter.at_time e <= t0 + RateLimiter.window rl) evs ->
  let done := RateLimiter.run (RateLimiter.Check t0 ip :: evs) rl in
  length (RateLimiter.verdicts_of ip done.1) = S (RateLimiter.checks_by ip evs) /\
  (forall i b, RateLimiter.verdicts_of ip done.1 !! i = Some b ->
               b = bool_decide (Z.of_nat i < RateLimiter.rate rl)) /\
  (forall t, t0 + RateLimiter.window rl < t ->
     (RateLimiter.Allow t ip done.2).1 = true /\
     RateLimiter.visitors (RateLimiter.Allow t ip done.2).2 !! ip =
       Some {| RateLimiter.requests := 1;
               RateLimiter.resetTime := t + RateLimiter.window rl |}).
Proof.
  intros Hrate Hstart Hall done.
  split.
  { subst done. rewrite RateLimiterFacts.run_verdicts_length.
    unfold RateLimiter.checks_by. simpl. by rewrite String.eqb_refl. }
  subst done. simpl.
  rewrite (RateLimiterFacts.Allow_fresh t0 ip rl Hstart).
  set (rl1 := RateLimiter.with_visitors _ rl).
  destruct (RateLimiter.run evs rl1) as [vs rl2] eqn:HR.
  destruct (RateLimiterFacts.run_within ip evs rl1 1 (t0 + RateLimiter.window rl))
    as [Hv [n' Hs]]; [by subst rl1; simpl; rewrite lookup_insert_eq | done |].
  pose proof (RateLimiterFacts.run_params evs rl1) as [Hr Hw].
  rewrite HR in Hv, Hs, Hr, Hw. simpl in *.
  split.
  - unfold RateLimiter.verdicts_of. simpl. rewrite String.eqb_refl. simpl.
    intros [|i] b Hb; simpl in Hb.
    + inversion Hb. symmetry. apply bool_decide_eq_true. lia.
    + apply Hv in Hb. subst b. apply bool_decide_ext. lia.
  - intros t Ht.
    rewrite (RateLimiterFacts.Allow_fresh t ip rl2).
    + simpl. rewrite lookup_insert_eq. by rewrite Hw.
    + right. eexists. split; [exact Hs|]. simpl. lia.
Qed.

Lemma RateLimiter_fixed_window_witness :
  let rl := RateLimiter.NewRateLimiter 2 Minute in
  let ip := "10.0.0.1" in
  let evs := [RateLimiter.Check 1 ip; RateLimiter.Sweep 2; RateLimiter.Check 3 "10.0.0.2";
              RateLimiter.Check 4 ip; RateLimiter.Check 5 ip] in
  let done := RateLimiter.run (RateLimiter.Check 0 ip :: evs) rl in
  length (RateLimiter.verdicts_of ip done.1) = S (RateLimiter.checks_by ip evs) /\
  (forall i b, RateLimiter.verdicts_of ip done.1 !! i = Some b ->
               b = bool_decide (Z.of_nat i < 2)) /\
  (forall t, 0 + Minute < t ->
     (RateLimiter.Allow t ip done.2).1 = true /\
     RateLimiter.visitors (RateLimiter.Allow t ip done.2).2 !! ip =
       Some {| RateLimiter.requests := 1; RateLimiter.resetTime := t + Minute |}).
Proof.
  intros rl ip evs.
  apply (RateLimiter_fixed_window rl ip 0 evs).
  - simpl. lia.
  - left. apply lookup_empty.
  - subst evs. repeat constructor; vm_compute; discriminate.
Defined.

(** C5 as stated fails for a rate of zero: the first check of a client opens
    a window and is admitted whatever the rate, so check number [rate + 1 = 1]
    is not rejected. *)
Lemma RateLimiter_rate_zero_admits_first :
  ~ (forall (rl : RateLimiter.t) (ip : string) (t0 : Z) (evs : list RateLimiter.event),
       (RateLimiter.visitors rl !! ip = None \/
        exists v, RateLimiter.visitors rl !! ip = Some v /\ RateLimiter.resetTime v < t0) ->
       Forall (fun e => RateLimiter.at_time e <= t0 + RateLimiter.window rl) evs ->
       forall i b,
         RateLimiter.verdicts_of ip
           (RateLimiter.run (RateLimiter.Check t0 ip :: evs) rl).1 !! i = Some b ->
         b = bool_decide (Z.of_nat i < RateLimiter.rate rl)).
Proof.
  intros H.
  specialize (H (RateLimiter.NewRateLimiter 0 Minute) "10.0.0.1" 0 []
                (or_introl (lookup_empty _)) (List.Forall_nil _) 0%nat true).
  simpl in H. unfold RateLimiter.Allow in H. simpl in H.
  rewrite lookup_empty in H. simpl in H.
  specialize (H eq_refl). discriminate H.
Qed.

(** ** Queries *)

Lemma first_by_In {A} (id : A -> Z) (l : list A) (r : A) :
  first_by id l = Some r -> In r l.
Proof.
  revert r. induction l as [|x l IH]; intros r; simpl; [discriminate|].
  destruct (first_by id l) as [r'|].
  - destruct (id x <=? id r'); intros [= <-]; [by left | right; by apply IH].
  - intros [= <-]. by left.
Qed.

Lemma first_by_None {A} (id : A -> Z) (l : list A) :
  first_by id l = None -> l = [].
Proof.
  destruct l as [|x l]; simpl; [done|].
  destruct (first_by id l) as [r'|]; [destruct (id x <=? id r')|]; discriminate.
Qed.

Lemma filter_none {A} (f : A -> bool) (l : list A) :
  List.filter f l = [] <-> (forall x, In x l -> f x = false).
Proof.
  induction l as [|x l IH]; simpl; [by split|].
  destruct (f x) eqn:Hx; split.
  - discriminate.
  - intros H. specialize (H x (or_introl eq_refl)). congruence.
  - intros Hnil y [<-|Hy]; [done | by apply IH].
  - intros H. apply IH. intros y Hy. apply H. by right.
Qed.

Lemma same_bucket_spec (s r : AccessStatistics.t) :
  same_bucket s r = true <-> bucket r = bucket s.
Proof.
  unfold same_bucket, bucket.
  rewrite !andb_true_iff, !Z.eqb_eq, String.eqb_eq.
  split; [intros [[-> ->] ->]; reflexivity | intros [= -> -> ->]; done].
Qed.

Lemma same_bucket_false (s r : AccessStatistics.t) :
  same_bucket s r = false <-> bucket r <> bucket s.
Proof.
  rewrite <- same_bucket_spec. destruct (same_bucket s r); split; congruence.
Qed.

(** ** RecordAccessStats *)

(** The sequence is ahead of every id in the table: its next value is free. *)
Lemma next_id_is_free (w : World) :
  primary_key_ok w ->
  existsb (fun r => AccessStatistics.ID r =? access_statistics_seq w + 1)
          (access_statistics w) = false.
Proof.
  intros [_ Hseq]. destruct (existsb _ _) eqn:He; [|done].
  apply existsb_exists in He as (r & Hin & Hr). apply Z.eqb_eq in Hr.
  rewrite Forall_forall in Hseq. apply list_elem_of_In, Hseq in Hin. lia.
Qed.

(** What one call does on a database that answers, for a struct without
    primary key. *)
Lemma RecordAccessStats_run (now : Z) (stats : AccessStatistics.t) (w : World) :
  db_faults w = [] ->
  primary_key_ok w ->
  AccessStatistics.ID stats = 0 ->
  let w' := (repository.RecordAccessStats now stats w).2 in
  db_faults w' = [] /\
  match first_by AccessStatistics.ID
          (List.filter (same_bucket stats) (access_statistics w)) with
  | None =>
      access_statistics_seq w' = access_statistics_seq w + 1 /\
      if references_short_code (AccessStatistics.ShortCodeID stats) w
      then (repository.RecordAccessStats now stats w).1 = inr tt /\
           access_statistics w' = (access_statistics w ++ [appended_row now stats w])%list
      else (repository.RecordAccessStats now stats w).1 = inl ErrBackend /\
           access_statistics w' = access_statistics w
  | Some existing =>
      (repository.RecordAccessStats now stats w).1 = inr tt /\
      access_statistics w' =
        map (bump (AccessStatistics.ID existing)) (access_statistics w) /\
      access_statistics_seq w' = access_statistics_seq w
  end.
Proof.
  intros Hdb Hpk Hid.
  unfold repository.RecordAccessStats, db_First_access_statistics,
    db_Create_access_statistics, db_Increment_access_count.
  run_step. rewrite Hdb. simpl.
  destruct (first_by AccessStatistics.ID
              (List.filter (same_bucket stats) (access_statistics w))) as [existing|];
    simpl; rewrite Hdb; simpl; [auto|].
  rewrite Hid. simpl.
  rewrite (next_id_is_free w Hpk). unfold references_short_code. simpl.
  destruct (existsb (fun r => ShortCode.ID r =? AccessStatistics.ShortCodeID stats)
                    (short_codes w)); simpl; auto.
Qed.

Lemma bump_bucket id r : bucket (bump id r) = bucket r.
Proof. unfold bump. by destruct (AccessStatistics.ID r =? id). Qed.

Lemma bump_ID id r : AccessStatistics.ID (bump id r) = AccessStatistics.ID r.
Proof. unfold bump. by destruct (AccessStatistics.ID r =? id). Qed.

Lemma same_bucket_bump s id r : same_bucket s (bump id r) = same_bucket s r.
Proof. unfold bump. by destruct (AccessStatistics.ID r =? id). Qed.

Lemma count_of_bump_gen (s : AccessStatistics.t) (id : Z) (l : list AccessStatistics.t) :
  count_of s (map (bump id) l) =
    count_of s l +
    Z.of_nat (length (List.filter
                        (fun r => same_bucket s r && (AccessStatistics.ID r =? id)) l)).
Proof.
  unfold count_of, sum_AccessCount.
  induction l as [|r l IH]; simpl; [done|].
  rewrite same_bucket_bump.
  destruct (same_bucket s r); simpl; [|exact IH].
  unfold bump at 1.
  destruct (AccessStatistics.ID r =? id); simpl; rewrite IH; lia.
Qed.

Lemma filter_by_primary_key (f : AccessStatistics.t -> bool)
    (existing : AccessStatistics.t) (l : list AccessStatistics.t) :
  NoDup (map AccessStatistics.ID l) ->
  In existing l ->
  List.filter (fun r => f r && (AccessStatistics.ID r =? AccessStatistics.ID existing)) l =
    if f existing then [existing] else [].
Proof.
  induction l as [|r l IH]; simpl; [done|].
  intros Hnd Hin. apply NoDup_cons in Hnd as [Hr Hnd].
  rewrite list_elem_of_In in Hr.
  destruct Hin as [->|Hin].
  - rewrite Z.eqb_refl, andb_true_r.
    assert (Hrest : List.filter
              (fun r => f r && (AccessStatistics.ID r =? AccessStatistics.ID existing)) l = []).
    { apply filter_none. intros x Hx.
      destruct (Z.eqb_spec (AccessStatistics.ID x) (AccessStatistics.ID existing)) as [He|];
        [|apply andb_false_r].
      exfalso. apply Hr. rewrite <- He. by apply in_map. }
    rewrite Hrest. by destruct (f existing).
  - destruct (Z.eqb_spec (AccessStatistics.ID r) (AccessStatistics.ID existing)) as [He|].
    + exfalso. apply Hr. rewrite He. by apply in_map.
    + rewrite andb_false_r. by apply IH.
Qed.

(** Incrementing the row with a given primary key adds one to the count of
    its bucket, and to no other. *)
Lemma count_of_bump (s existing : AccessStatistics.t) (l : list AccessStatistics.t) :
  NoDup (map AccessStatistics.ID l) ->
  In existing l ->
  count_of s (map (bump (AccessStatistics.ID existing)) l) =
    count_of s l + (if same_bucket s existing then 1 else 0).
Proof.
  intros Hnd Hin. rewrite count_of_bump_gen.
  rewrite (filter_by_primary_key (same_bucket s) existing l Hnd Hin).
  by destruct (same_bucket s existing).
Qed.

Lemma count_of_app (s : AccessStatistics.t) (l k : list AccessStatistics.t) :
  count_of s (l ++ k) = count_of s l + count_of s k.
Proof.
  unfold count_of, sum_AccessCount. rewrite List.filter_app.
  induction (List.filter (same_bucket s) l) as [|x xs IH]; simpl; [done|].
  rewrite IH. lia.
Qed.

(** One call on any database, answering or not, for a struct without primary
    key: the table is left as it was (the sequence may have moved on by
    one), or gets one row for a key that had none, or has the row that
    [First] found incremented. *)
Lemma RecordAccessStats_any (now : Z) (stats : AccessStatistics.t) (w : World) :
  primary_key_ok w ->
  AccessStatistics.ID stats = 0 ->
  let w' := (repository.RecordAccessStats now stats w).2 in
  (access_statistics w' = access_statistics w /\
   access_statistics_seq w <= access_statistics_seq w' <= access_statistics_seq w + 1) \/
  (List.filter (same_bucket stats) (access_statistics w) = [] /\
   access_statistics w' = (access_statistics w ++ [appended_row now stats w])%list /\
   access_statistics_seq w' = access_statistics_seq w + 1) \/
  (exists existing,
     In existing (access_statistics w) /\
     access_statistics w' =
       map (bump (AccessStatistics.ID existing)) (access_statistics w) /\
     access_statistics_seq w' = access_statistics_seq w).
Proof.
  intros Hpk Hid.
  pose proof (next_id_is_free w Hpk) as Hfree.
  unfold repository.RecordAccessStats, db_First_access_statistics,
    db_Create_access_statistics, db_Increment_access_count.
  run_step.
  destruct (db_faults w) as [|[] [|[] fs]] eqn:Hf; simpl;
    try (left; split; [reflexivity | lia]);
    (destruct (first_by AccessStatistics.ID
                 (List.filter (same_bucket stats) (access_statistics w)))
       as [existing|] eqn:Hfirst; simpl; rewrite ?Hf; simpl;
     try (left; split; [reflexivity | lia])).
  all: try (right; right; exists existing; split_and!; try reflexivity;
            by apply first_by_In, filter_In in Hfirst as [? _]).
  all: rewrite Hid; simpl; rewrite Hfree; unfold references_short_code; simpl.
  all: destruct (existsb (fun r => ShortCode.ID r =? AccessStatistics.ShortCodeID stats)
                         (short_codes w)); simpl;
       [right; left; split_and!; try reflexivity; by apply first_by_None in Hfirst
       | left; split; [reflexivity | lia]].
Qed.

(** The two invariants of the table survive every call. *)
Lemma RecordAccessStats_keeps_invariants
    (now : Z) (stats : AccessStatistics.t) (w : World) :
  primary_key_ok w ->
  AccessStatistics.ID stats = 0 ->
  let w' := (repository.RecordAccessStats now stats w).2 in
  (one_row_per_bucket (access_statistics w) ->
   one_row_per_bucket (access_statistics w')) /\
  primary_key_ok w'.
Proof.
  intros Hpk Hid w'. pose proof Hpk as [Hnd Hseq].
  destruct (RecordAccessStats_any now stats w Hpk Hid)
    as [[Hrows Hs] | [(Hnone & Hrows & Hs) | (existing & Hin & Hrows & Hs)]];
    fold w' in Hrows, Hs; unfold primary_key_ok, one_row_per_bucket;
    rewrite Hrows.
  - split_and!; [done | done |].
    eapply Forall_impl; [exact Hseq|]. simpl. intros. lia.
  - rewrite Hs.
    pose proof (proj1 (filter_none _ _) Hnone) as Hfresh.
    rewrite !map_app. simpl. split_and!.
    + intros Hone. apply NoDup_app. split_and!; [done| |apply NoDup_singleton].
      intros k Hk Hk'. apply list_elem_of_singleton in Hk'. subst k.
      apply list_elem_of_In, in_map_iff in Hk as (r & Hb & Hr).
      apply Hfresh, same_bucket_false in Hr. done.
    + apply NoDup_app. split_and!; [done| |apply NoDup_singleton].
      intros k Hk Hk'. apply list_elem_of_singleton in Hk'. subst k.
      apply list_elem_of_In, in_map_iff in Hk as (r & Hid' & Hr).
      rewrite Forall_forall in Hseq. apply list_elem_of_In, Hseq in Hr. lia.
    + apply Forall_app. split.
      * eapply Forall_impl; [exact Hseq|]. simpl. intros. lia.
      * apply Forall_singleton. simpl. lia.
  - rewrite Hs.
    assert (Hkeys : map bucket (map (bump (AccessStatistics.ID existing))
                                    (access_statistics w))
                    = map bucket (access_statistics w)).
    { rewrite map_map. apply map_ext. intros. apply bump_bucket. }
    assert (Hids : map AccessStatistics.ID
                     (map (bump (AccessStatistics.ID existing)) (access_statistics w))
                   = map AccessStatistics.ID (access_statistics w)).
    { rewrite map_map. apply map_ext. intros. apply bump_ID. }
    rewrite Hkeys, Hids. split_and!; [done | done |].
    apply Forall_forall. intros r Hr.
    apply list_elem_of_In, in_map_iff in Hr as (r0 & <- & Hr0).
    rewrite bump_ID. rewrite Forall_forall in Hseq.
    apply Hseq. by apply list_elem_of_In.
Qed.


(** The count of every bucket after one call that succeeds, on a database
    that answers. *)
Lemma RecordAccessStats_counts (now : Z) (stats other : AccessStatistics.t) (w : World) :
  db_faults w = [] ->
  primary_key_ok w ->
  AccessStatistics.ID stats = 0 ->
  references_short_code (AccessStatistics.ShortCodeID stats) w = true ->
  let w' := (repository.RecordAccessStats now stats w).2 in
  (repository.RecordAccessStats now stats w).1 = inr tt /\
  db_faults w' = [] /\
  count_of other (access_statistics w') =
    count_of other (access_statistics w) + (if same_bucket stats other then 1 else 0).
Proof.
  intros Hdb Hpk Hid Hfk w'. pose proof Hpk as [Hnd Hseq].
  destruct (RecordAccessStats_run now stats w Hdb Hpk Hid) as (Hdb' & Hrun).
  fold w' in Hdb', Hrun.
  assert (Hsym : forall r, bucket r = bucket stats ->
                           same_bucket other r = same_bucket stats other).
  { intros r Hr. destruct (same_bucket stats other) eqn:Hso.
    - apply same_bucket_spec. apply same_bucket_spec in Hso. congruence.
    - apply same_bucket_false. apply same_bucket_false in Hso. congruence. }
  destruct (first_by AccessStatistics.ID
              (List.filter (same_bucket stats) (access_statistics w)))
    as [existing|] eqn:Hfirst.
  - destruct Hrun as (Hres & Hrows & _). split_and!; [done | done |].
    rewrite Hrows.
    apply first_by_In, filter_In in Hfirst as [Hin Hsame].
    rewrite count_of_bump by done.
    by rewrite (Hsym existing (proj1 (same_bucket_spec _ _) Hsame)).
  - rewrite Hfk in Hrun. destruct Hrun as (_ & Hres & Hrows).
    split_and!; [done | done |].
    set (row := appended_row now stats w) in Hrows.
    rewrite Hrows, count_of_app. f_equal.
    unfold count_of. cbn [List.filter].
    rewrite (Hsym row eq_refl).
    by destruct (same_bucket stats other).
Qed.

Lemma RecordAccessStats_short_codes (now : Z) (stats : AccessStatistics.t) (w : World) :
  short_codes (repository.RecordAccessStats now stats w).2 = short_codes w.
Proof.
  unfold repository.RecordAccessStats, db_First_access_statistics,
    db_Create_access_statistics, db_Increment_access_count.
  run_step.
  destruct (db_faults w) as [|[] [|[] fs]] eqn:Hf; simpl; try reflexivity;
    destruct (first_by AccessStatistics.ID _); simpl; rewrite ?Hf; simpl;
    try reflexivity.
  all: repeat match goal with
       | |- context [if ?b then _ else _] => destruct b; simpl
       end; reflexivity.
Qed.

(** Along any sequence of calls on a database that answers, for short codes
    that exist, the table keeps one row per key, and the count of a key grows
    by the number of calls made for it: N clicks of one visitor on one code
    within one hour end up as one row with count N. *)
Lemma RecordAccessStats_each_counts (calls : list (Z * AccessStatistics.t)) :
  forall (w : World) (s : AccessStatistics.t),
    db_faults w = [] ->
    primary_key_ok w ->
    one_row_per_bucket (access_statistics w) ->
    Forall (fun c => AccessStatistics.ID c.2 = 0 /\
                     references_short_code (AccessStatistics.ShortCodeID c.2) w = true)
           calls ->
    let w' := RecordAccessStats_each calls w in
    one_row_per_bucket (access_statistics w') /\
    count_of s (access_statistics w') =
      count_of s (access_statistics w) + calls_in_bucket s calls.
Proof.
  induction calls as [|[now stats] calls IH]; intros w s Hdb Hpk Hone Hcalls; simpl.
  - split; [done|]. unfold calls_in_bucket. simpl. lia.
  - apply Forall_cons in Hcalls as [[Hid Hfk] Hcalls]. simpl in Hid, Hfk.
    destruct (RecordAccessStats_keeps_invariants now stats w Hpk Hid) as [Hone' Hpk'].
    destruct (RecordAccessStats_counts now stats s w Hdb Hpk Hid Hfk)
      as (_ & Hdb' & Hcount).
    destruct (IH (repository.RecordAccessStats now stats w).2 s Hdb' Hpk' (Hone' Hone))
      as [Hfinal Hsum].
    { eapply Forall_impl; [exact Hcalls|]. simpl. intros c [Hc Hr]. split; [exact Hc|].
      unfold references_short_code. rewrite RecordAccessStats_short_codes. exact Hr. }
    split; [exact Hfinal|]. rewrite Hsum, Hcount.
    unfold calls_in_bucket. simpl.
    destruct (same_bucket stats s); simpl; lia.
Qed.


(** ** Backend commands on backends that answer *)

Lemma db_exec_healthy {A} (op : StorageOp) (run : M A) (w : World) :
  db_faults w = [] -> db_exec op run w = run (logged op w).
Proof. intros H. run_step. by rewrite H. Qed.

Lemma db_exec_passed {A} (op : StorageOp) (run : M A) (w : World) fs :
  db_faults w = false :: fs ->
  db_exec op run w = run (with_db_faults fs (logged op w)).
Proof. intros H. run_step. by rewrite H. Qed.

Lemma db_exec_broken {A} (op : StorageOp) (run : M A) (w : World) fs :
  db_faults w = true :: fs ->
  db_exec op run w = (inl ErrBackend, with_db_faults fs (logged op w)).
Proof. intros H. run_step. by rewrite H. Qed.

Lemma count_positive {A} (f : A -> bool) (l : list A) :
  (0 <? Z.of_nat (length (List.filter f l))) = existsb f l.
Proof.
  induction l as [|x l IH]; simpl; [done|].
  destruct (f x); simpl; [|exact IH].
  apply Z.ltb_lt. lia.
Qed.

Lemma CodeExists_run (code : string) (w : World) :
  db_faults w = [] ->
  repository.CodeExists code w =
    (inr (code_live code w), logged (OpCountShortCode code) w).
Proof.
  intros H. unfold repository.CodeExists, db_Count_short_code, bind.
  rewrite db_exec_healthy by done. unfold ret. simpl.
  by rewrite count_positive.
Qed.

Lemma Create_run (now : Z) (sc : ShortCode.t) (w : World) :
  db_faults w = [] ->
  repository.Create now sc w =
    let wl := logged (OpInsertShortCode (ShortCode.Code sc)) w in
    let id := short_codes_seq w + 1 in
    if code_taken (ShortCode.Code sc) w
    then (inl ErrDuplicateKey, with_short_codes (short_codes w) id wl)
    else
      let row := ShortCode.mk id (ShortCode.Code sc) (ShortCode.OriginalURL sc)
                   now now (ShortCode.ExpiresAt sc) (ShortCode.ClickCount sc)
                   (ShortCode.LastAccessedAt sc) None in
      (inr row, with_short_codes (short_codes w ++ [row]) id wl).
Proof.
  intros H. unfold repository.Create, db_Create_short_code.
  rewrite db_exec_healthy by done. reflexivity.
Qed.

Lemma redis_Get_run (now : Z) (key : string) (w : World) :
  redis_faults w = [] ->
  redis_Get now key w =
    (match redis w !! key with
     | Some (v, expiry) => if now <? expiry then inr v else inl redis_Nil
     | None => inl redis_Nil
     end, logged (OpRedisGet key) w).
Proof.
  intros H. unfold redis_Get. run_step. rewrite H. simpl.
  destruct (redis w !! key) as [[v expiry]|]; [|done].
  by destruct (now <? expiry).
Qed.

(** A read served by the cache: one Redis command, nothing else. *)
Lemma GetByCode_hit (now : Z) (code : string) (w : World) (sc : ShortCode.t) :
  redis_faults w = [] ->
  cache_lookup now code w = Some sc ->
  repository.GetByCode now code w =
    (inr sc, logged (OpRedisGet (repository.cacheKey code)) w).
Proof.
  intros H Hc. unfold repository.GetByCode, bind, try.
  rewrite redis_Get_run by done. unfold cache_lookup in Hc.
  destruct (redis w !! repository.cacheKey code) as [[v expiry]|]; [|done].
  destruct (now <? expiry); [|done]. by rewrite Hc.
Qed.

(** A read that misses the cache asks the table for a live, unexpired row,
    and caches what it finds for 24 hours. *)
Lemma GetByCode_miss (now : Z) (code : string) (w : World) :
  healthy w ->
  cache_lookup now code w = None ->
  repository.GetByCode now code w =
    let wl := logged (OpSelectShortCode code)
                (logged (OpRedisGet (repository.cacheKey code)) w) in
    match first_by ShortCode.ID
            (List.filter (fun r => has_code code r && live r && not_expired now r)
                         (short_codes w)) with
    | Some r =>
        (inr r,
         with_redis (<[repository.cacheKey code :=
                         (json_Marshal r, now + repository.cacheTTL)]> (redis w))
                    (logged (OpRedisSet (repository.cacheKey code)) wl))
    | None => (inl (errors_New "short code not found"), wl)
    end.
Proof.
  intros [Hdb Hr] Hc. unfold repository.GetByCode, bind, try.
  rewrite redis_Get_run by done. unfold cache_lookup in Hc.
  assert (match
             match redis w !! repository.cacheKey code with
             | Some (v, expiry) => if now <? expiry then inr v else inl redis_Nil
             | None => inl redis_Nil
             end
           with
           | inl _ => None
           | inr data => json_Unmarshal data
           end = None) as ->.
  { destruct (redis w !! repository.cacheKey code) as [[v expiry]|]; [|done].
    by destruct (now <? expiry). }
  unfold db_First_short_code. rewrite db_exec_healthy by done. simpl.
  destruct (first_by ShortCode.ID _) as [r|]; [|reflexivity].
  unfold redis_Set. run_step. rewrite Hr. reflexivity.
Qed.

(** ** Code generation *)

Lemma generateRandomCode_run (n : nat) : forall w,
  service.generateRandomCode n w =
    (inr (code_from (entropy w) (drawn w) n), with_drawn (n + drawn w) w).
Proof.
  induction n as [|n IH]; intros w; simpl.
  - unfold ret. by destruct w.
  - unfold bind, service.rand_Int. rewrite IH. simpl.
    unfold ret. by rewrite Nat.add_succ_r.
Qed.

Lemma charset_alnum (i : nat) :
  (i < String.length service.charset)%nat ->
  service.is_alnum (service.charset_at i) = true.
Proof.
  intros Hi.
  assert (H : forallb (fun i => service.is_alnum (service.charset_at i))
                (seq 0 (String.length service.charset)) = true) by (vm_compute; reflexivity).
  rewrite forallb_forall in H. apply H, in_seq. lia.
Qed.

Lemma code_from_length (e : nat -> nat) (n : nat) : forall start,
  String.length (code_from e start n) = n.
Proof. induction n as [|n IH]; intros start; simpl; [done | by rewrite IH]. Qed.

Lemma code_from_alnum (e : nat -> nat) (n : nat) : forall start,
  service.any_byte (fun c => negb (service.is_alnum c)) (code_from e start n) = false.
Proof.
  induction n as [|n IH]; intros start; cbn [code_from service.any_byte]; [done|].
  rewrite IH, charset_alnum; [done|].
  apply Nat.mod_upper_bound. vm_compute. discriminate.
Qed.

Lemma candidate_matches (w : World) (k : nat) : matches_alnum6 (candidate w k) = true.
Proof.
  unfold matches_alnum6, candidate.
  by rewrite code_from_length, code_from_alnum.
Qed.

(** A generated code is also a valid custom code. *)
Lemma candidate_valid (w : World) (k : nat) : service.isValidCode (candidate w k) = true.
Proof.
  unfold service.isValidCode, candidate.
  by rewrite code_from_length, code_from_alnum.
Qed.

(** CodeExists on any database: one count query; it answers with the
    liveness of the code or fails. *)
Lemma CodeExists_any (code : string) (w : World) :
  let '(r, w') := repository.CodeExists code w in
  (r = inr (code_live code w) \/ r = inl ErrBackend) /\
  oplog w' = (oplog w ++ [OpCountShortCode code])%list /\
  untouched w w' /\ drawn w' = drawn w /\
  (db_faults w = [] -> db_faults w' = [] /\ r = inr (code_live code w)).
Proof.
  unfold repository.CodeExists, db_Count_short_code, bind.
  destruct (db_faults w) as [|[] fs] eqn:Hf.
  - rewrite db_exec_healthy by done. unfold ret. simpl.
    rewrite count_positive. unfold untouched. simpl. tauto.
  - rewrite (db_exec_broken _ _ _ fs) by done.
    unfold untouched. simpl. split_and!; try done; tauto.
  - rewrite (db_exec_passed _ _ _ fs) by done. unfold ret. simpl.
    rewrite count_positive. unfold untouched. simpl. split_and!; try done; tauto.
Qed.

Lemma untouched_refl (w : World) : untouched w w.
Proof. unfold untouched. tauto. Qed.

Lemma untouched_trans (a b c : World) :
  untouched a b -> untouched b c -> untouched a c.
Proof. unfold untouched. intuition congruence. Qed.

Lemma untouched_drawn (n : nat) (w : World) : untouched w (with_drawn n w).
Proof. unfold untouched. simpl. tauto. Qed.

Lemma code_live_untouched (code : string) (w w' : World) :
  untouched w w' -> code_live code w' = code_live code w.
Proof. intros (H & _). unfold code_live. by rewrite H. Qed.

Lemma candidate_shift (w w' : World) (k : nat) :
  entropy w' = entropy w ->
  drawn w' = (service.defaultCodeLength + drawn w)%nat ->
  candidate w' k = candidate w (S k).
Proof.
  intros He Hd. unfold candidate. rewrite He, Hd. f_equal.
  unfold service.defaultCodeLength. lia.
Qed.

Lemma candidate_first (w : World) :
  code_from (entropy w) (drawn w) service.defaultCodeLength = candidate w 0.
Proof. unfold candidate. f_equal. lia. Qed.

(** The generation loop on any database.  It touches nothing but the log,
    the fault schedule and the random source; it issues at most [retries]
    existence checks and nothing else; a code it returns matches the pattern
    and was reported absent.  On a database that answers, it returns the first
    candidate that is not live, and gives up exactly when all are. *)
Lemma generateUniqueCode_from_any (retries : nat) : forall w,
  let '(r, w') := service.generateUniqueCode_from retries w in
  untouched w w' /\
  (exists ops, oplog w' = (oplog w ++ ops)%list /\
               (length ops <= retries)%nat /\ forallb is_count ops = true) /\
  (drawn w' <= drawn w + service.defaultCodeLength * retries)%nat /\
  (forall code, r = inr code ->
                matches_alnum6 code = true /\ code_live code w = false /\
                exists k, (k < retries)%nat /\ code = candidate w k) /\
  (db_faults w = [] ->
   db_faults w' = [] /\
   ((exists k, (k < retries)%nat /\ r = inr (candidate w k) /\
               code_live (candidate w k) w = false /\
               forall j, (j < k)%nat -> code_live (candidate w j) w = true) \/
    (r = inl (errors_New "failed to generate unique code after max retries") /\
     forall j, (j < retries)%nat -> code_live (candidate w j) w = true))).
Proof.
  induction retries as [|n IH]; intros w.
  - simpl. unfold fail. split_and!.
    + apply untouched_refl.
    + exists []. split_and!; [by rewrite app_nil_r | simpl; lia | done].
    + lia.
    + discriminate.
    + intros Hdb. split; [done|]. right. split; [done|]. intros j Hj. lia.
  - cbn [service.generateUniqueCode_from]. unfold bind.
    rewrite generateRandomCode_run, candidate_first.
    set (w1 := with_drawn (service.defaultCodeLength + drawn w) w).
    pose proof (CodeExists_any (candidate w 0) w1) as HC.
    destruct (repository.CodeExists (candidate w 0) w1) as [r1 w2].
    destruct HC as (Hr1 & Hlog & Hunt & Hdr & Hh).
    assert (Hunt2 : untouched w w2).
    { eapply untouched_trans; [apply untouched_drawn | exact Hunt]. }
    assert (Hlive : forall c, code_live c w1 = code_live c w).
    { intros c. apply code_live_untouched, untouched_drawn. }
    rewrite Hlive in Hr1, Hh.
    destruct r1 as [e|[|]].
    + (* the existence check failed *)
      split_and!.
      * done.
      * exists [OpCountShortCode (candidate w 0)]. split; [exact Hlog|]. simpl. split; [lia|done].
      * rewrite Hdr. subst w1. simpl. lia.
      * discriminate.
      * intros Hdb. destruct (Hh Hdb) as [_ Habs]. discriminate Habs.
    + (* the candidate exists: next round *)
      specialize (IH w2).
      destruct (service.generateUniqueCode_from n w2) as [r w'].
      destruct IH as (IHu & (ops & IHlog & IHlen & IHops) & IHdr & IHcode & IHdb).
      assert (Hlive2 : forall c, code_live c w2 = code_live c w).
      { intros c. by apply code_live_untouched. }
      assert (Hcand : forall k, candidate w2 k = candidate w (S k)).
      { intros k. apply candidate_shift; [apply Hunt2 | by rewrite Hdr]. }
      split_and!.
      * by eapply untouched_trans.
      * exists (OpCountShortCode (candidate w 0) :: ops).
        split; [|split; [simpl; lia | simpl; exact IHops]].
        rewrite IHlog, Hlog. subst w1. simpl. by rewrite <- app_assoc.
      * rewrite Hdr in IHdr. subst w1. simpl in IHdr. unfold service.defaultCodeLength in *. lia.
      * intros code Hc. destruct (IHcode code Hc) as (Hm & Hl & k & Hk & Hck).
        rewrite Hlive2 in Hl. split_and!; [done | done |].
        exists (S k). split; [lia|]. by rewrite <- Hcand.
      * intros Hdb. destruct (Hh Hdb) as [Hdb2 Htrue].
        destruct (IHdb Hdb2) as [Hdb' Hcases]. split; [done|].
        assert (H0 : code_live (candidate w 0) w = true) by congruence.
        destruct Hcases as [(k & Hk & Hr & Hkl & Hbefore) | (Hr & Hall)].
        -- left. exists (S k). rewrite <- Hcand. split_and!; [lia | done | by rewrite <- Hlive2 |].
           intros [|j] Hj; [done|]. rewrite <- Hcand, <- Hlive2. apply Hbefore. lia.
        -- right. split; [done|]. intros [|j] Hj; [done|].
           rewrite <- Hcand, <- Hlive2. apply Hall. lia.
    + (* the candidate is free *)
      unfold ret.
      assert (H0 : code_live (candidate w 0) w = false).
      { destruct Hr1 as [Hr1|Hr1]; congruence. }
      split_and!.
      * done.
      * exists [OpCountShortCode (candidate w 0)]. split; [exact Hlog|]. simpl. split; [lia|done].
      * rewrite Hdr. subst w1. simpl. lia.
      * intros code [= <-]. split_and!; [apply candidate_matches | done |].
        exists 0%nat. split; [lia | done].
      * intros Hdb. destruct (Hh Hdb) as [Hdb2 _]. split; [done|].
        left. exists 0%nat. split_and!; [lia | done | done |]. intros j Hj. lia.
Qed.

(** The generation loop on a database that answers, step by step: it draws
    and checks the candidates in order and stops at the first one that no
    live row carries, or after [retries] of them. *)
Lemma generateUniqueCode_from_trace (retries : nat) : forall w,
  db_faults w = [] ->
  let '(r, w') := service.generateUniqueCode_from retries w in
  untouched w w' /\ db_faults w' = [] /\
  exists m,
    drawn w' = (drawn w + service.defaultCodeLength * m)%nat /\
    oplog w' = (oplog w ++ map (fun j => OpCountShortCode (candidate w j)) (seq 0 m))%list /\
    (forall j, (j < m - 1)%nat -> code_live (candidate w j) w = true) /\
    (((1 <= m <= retries)%nat /\ r = inr (candidate w (m - 1)) /\
      code_live (candidate w (m - 1)) w = false) \/
     (m = retries /\
      r = inl (errors_New "failed to generate unique code after max retries") /\
      forall j, (j < retries)%nat -> code_live (candidate w j) w = true)).
Proof.
  induction retries as [|n IH]; intros w Hdb.
  - simpl. unfold fail. split_and!; [apply untouched_refl | done |].
    exists 0%nat. simpl. split; [lia|]. split; [by rewrite app_nil_r|].
    split; [intros j Hj; lia|].
    right. split; [done|]. split; [done|]. intros j Hj. lia.
  - cbn [service.generateUniqueCode_from]. unfold bind.
    rewrite generateRandomCode_run, candidate_first.
    set (w1 := with_drawn (service.defaultCodeLength + drawn w) w).
    rewrite (CodeExists_run (candidate w 0) w1) by exact Hdb.
    assert (Hlive1 : forall c, code_live c w1 = code_live c w) by reflexivity.
    rewrite Hlive1.
    set (w2 := logged (OpCountShortCode (candidate w 0)) w1).
    assert (Hunt2 : untouched w w2) by (unfold untouched; simpl; tauto).
    destruct (code_live (candidate w 0) w) eqn:H0.
    + (* the candidate exists: next round *)
      specialize (IH w2 Hdb).
      destruct (service.generateUniqueCode_from n w2) as [r w'].
      destruct IH as (IHu & IHdb & m & IHdr & IHlog & IHbefore & IHcases).
      assert (Hlive2 : forall c, code_live c w2 = code_live c w) by reflexivity.
      assert (Hcand : forall k, candidate w2 k = candidate w (S k)).
      { intros k. apply candidate_shift; reflexivity. }
      split_and!; [by eapply untouched_trans | done |].
      exists (S m). split; [|split; [|split]].
      * rewrite IHdr. subst w2 w1. simpl. unfold service.defaultCodeLength. lia.
      * rewrite IHlog. subst w2 w1. simpl. rewrite <- app_assoc. simpl.
        do 2 f_equal. rewrite <- seq_shift, map_map.
        apply map_ext. intros j. by rewrite Hcand.
      * intros [|j] Hj; [done|]. rewrite <- Hcand, <- Hlive2. apply IHbefore. lia.
      * destruct IHcases as [(Hm & Hr & Hfree) | (Hm & Hr & Hall)].
        -- left. split; [lia|]. split.
           ++ rewrite Hr, Hcand. do 2 f_equal. lia.
           ++ rewrite Hlive2, Hcand in Hfree.
              replace (S m - 1)%nat with (S (m - 1)) by lia. exact Hfree.
        -- right. split; [lia|]. split; [done|].
           intros [|j] Hj; [done|]. rewrite <- Hcand, <- Hlive2. apply Hall. lia.
    + (* the candidate is free *)
      unfold ret. split_and!; [done | done |].
      exists 1%nat. split; [|split; [|split]].
      * subst w2 w1. simpl. unfold service.defaultCodeLength. lia.
      * reflexivity.
      * intros j Hj. lia.
      * left. split; [lia|]. split; done.
Qed.


(** ** CreateShortCode *)

Lemma CreateShortCode_split (url_Parse : string -> option service.URL)
    (baseURL : string) (now : Z) (req : CreateShortCodeRequest) :
  service.CreateShortCode url_Parse baseURL now req =
    if negb (service.isValidURL url_Parse (req_URL req)) then fail ErrInvalidURL
    else bind (select_code req) (persist baseURL now req).
Proof. reflexivity. Qed.

Lemma code_taken_spec (code : string) (w : World) :
  code_taken code w = true <-> In code (map ShortCode.Code (short_codes w)).
Proof.
  unfold code_taken. rewrite existsb_exists, in_map_iff.
  split; intros (r & H1 & H2); exists r.
  - apply String.eqb_eq in H2. done.
  - split; [done|]. by apply String.eqb_eq.
Qed.

Lemma code_taken_untouched (code : string) (w w' : World) :
  untouched w w' -> code_taken code w' = code_taken code w.
Proof. intros (H & _). unfold code_taken. by rewrite H. Qed.

(** The choice of the code on any database. *)
Lemma select_code_any (req : CreateShortCodeRequest) (w : World) :
  let '(r, w0) := select_code req w in
  untouched w w0 /\
  (exists ops, oplog w0 = (oplog w ++ ops)%list /\
               (length ops <= service.maxRetries)%nat /\ forallb is_count ops = true) /\
  (drawn w0 <= drawn w + service.defaultCodeLength * service.maxRetries)%nat /\
  (db_faults w = [] -> db_faults w0 = []) /\
  (forall code, r = inr code ->
     code_live code w = false /\
     (req_CustomCode req <> "" -> code = req_CustomCode req) /\
     (req_CustomCode req = "" ->
      matches_alnum6 code = true /\
      exists k, (k < service.maxRetries)%nat /\ code = candidate w k)).
Proof.
  unfold select_code.
  destruct (String.eqb_spec (req_CustomCode req) "") as [Hc|Hc]; simpl.
  - (* no custom code *)
    unfold bind, try, service.generateUniqueCode.
    pose proof (generateUniqueCode_from_any service.maxRetries w) as HG.
    destruct (service.generateUniqueCode_from service.maxRetries w) as [r0 w0].
    destruct HG as (Hu & Hops & Hdr & Hcode & Hdb).
    destruct r0 as [e|code]; unfold fail, ret; split_and!; try done.
    + intros Hf. by apply Hdb.
    + intros Hf. by apply Hdb.
    + intros c [= <-]. destruct (Hcode code eq_refl) as (? & ? & ?). done.
  - (* custom code *)
    destruct (service.isValidCode (req_CustomCode req)); simpl.
    + unfold bind, try.
      pose proof (CodeExists_any (req_CustomCode req) w) as HC.
      destruct (repository.CodeExists (req_CustomCode req) w) as [r1 w0].
      destruct HC as (Hr1 & Hlog & Hu & Hdr & Hh).
      assert (Hops : exists ops, oplog w0 = (oplog w ++ ops)%list /\
                 (length ops <= service.maxRetries)%nat /\ forallb is_count ops = true).
      { eexists. split; [exact Hlog|]. simpl. unfold service.maxRetries. split; [lia|done]. }
      destruct r1 as [e|[|]]; unfold fail, ret; split_and!; try done; try lia.
      * intros Hf. by apply Hh.
      * intros Hf. by apply Hh.
      * intros Hf. by apply Hh.
      * intros c [= <-]. split_and!; [|done|done].
        destruct Hr1 as [Hr1|Hr1]; congruence.
    + unfold fail. split_and!.
      * apply untouched_refl.
      * exists []. rewrite app_nil_r. simpl. split_and!; [done|lia|done].
      * lia.
      * done.
      * discriminate.
Qed.

(** The choice of the code for a request without custom code, on a database
    that answers. *)
Lemma select_code_generated (req : CreateShortCodeRequest) (w : World) :
  req_CustomCode req = "" ->
  db_faults w = [] ->
  let '(r, w0) := select_code req w in
  untouched w w0 /\ db_faults w0 = [] /\
  exists m,
    drawn w0 = (drawn w + service.defaultCodeLength * m)%nat /\
    oplog w0 = (oplog w ++ map (fun j => OpCountShortCode (candidate w j)) (seq 0 m))%list /\
    (forall j, (j < m - 1)%nat -> code_live (candidate w j) w = true) /\
    (((1 <= m <= service.maxRetries)%nat /\ r = inr (candidate w (m - 1)) /\
      code_live (candidate w (m - 1)) w = false) \/
     (m = service.maxRetries /\
      r = inl (Errorf_w "failed to generate unique code"
                 (errors_New "failed to generate unique code after max retries")) /\
      forall j, (j < service.maxRetries)%nat -> code_live (candidate w j) w = true)).
Proof.
  intros Hauto Hdb. unfold select_code. rewrite Hauto. simpl.
  unfold bind, try, service.generateUniqueCode.
  pose proof (generateUniqueCode_from_trace service.maxRetries w Hdb) as HG.
  destruct (service.generateUniqueCode_from service.maxRetries w) as [r1 w1].
  destruct HG as (Hu & Hdb1 & m & Hdr & Hlog & Hbefore & Hcases).
  destruct Hcases as [(Hm & -> & Hfree) | (Hm & -> & Hall)]; unfold ret, fail;
    (split; [done|]); (split; [done|]); exists m;
    (split; [done|]); (split; [done|]); (split; [done|]).
  - left. done.
  - right. done.
Qed.

(** The write on a database that answers: the unique index decides. *)
Lemma persist_run (baseURL : string) (now : Z) (req : CreateShortCodeRequest)
    (code : string) (w : World) :
  db_faults w = [] ->
  persist baseURL now req code w =
    let wl := logged (OpInsertShortCode code) w in
    let id := short_codes_seq w + 1 in
    if code_taken code w
    then (inl (Errorf_w "failed to create short code" ErrDuplicateKey),
          with_short_codes (short_codes w) id wl)
    else (inr {| resp_ShortCode := code;
                 resp_ShortURL := baseURL +:+ "/" +:+ code;
                 resp_OriginalURL := req_URL req;
                 resp_CreatedAt := now;
                 resp_ExpiresAt := expiry_of now req |},
          with_short_codes (short_codes w ++ [stored_row now req code w]) id wl).
Proof.
  intros H. unfold persist, bind, try. rewrite Create_run by done. simpl.
  by destruct (code_taken code w).
Qed.

(** C8 (as amended).  A request whose custom code is non-empty and does not
    match [^[A-Za-z0-9]{4,50}$] leaves the world exactly as it was: no
    existence check, no write, no cache command, nothing logged.  When its URL
    is valid it fails with ErrInvalidCode; when it is not, the URL check
    comes first and it fails with ErrInvalidURL.  This holds whatever
    [url.Parse] accepts. *)
Theorem CreateShortCode_rejects_bad_custom_code
    (url_Parse : string -> option service.URL) (baseURL : string) (now : Z)
    (req : CreateShortCodeRequest) (w : World) :
  req_CustomCode req <> "" ->
  service.isValidCode (req_CustomCode req) = false ->
  (service.CreateShortCode url_Parse baseURL now req w).2 = w /\
  oplog (service.CreateShortCode url_Parse baseURL now req w).2 = oplog w /\
  (service.isValidURL url_Parse (req_URL req) = true ->
   (service.CreateShortCode url_Parse baseURL now req w).1 = inl ErrInvalidCode) /\
  (service.isValidURL url_Parse (req_URL req) = false ->
   (service.CreateShortCode url_Parse baseURL now req w).1 = inl ErrInvalidURL).
Proof.
  intros Hcustom Hinvalid. rewrite CreateShortCode_split.
  destruct (service.isValidURL url_Parse (req_URL req)); simpl.
  - unfold bind, select_code.
    destruct (String.eqb_spec (req_CustomCode req) "") as [|_]; [done|].
    rewrite Hinvalid. simpl. unfold fail. done.
  - unfold fail. simpl. split_and!; [done | done | discriminate | done].
Qed.

Lemma CreateShortCode_rejects_bad_custom_code_witness :
  let res :=
    service.CreateShortCode example_url_Parse example_base 5 request_short_code world0 in
  res.2 = world0 /\ oplog res.2 = [] /\ res.1 = inl ErrInvalidCode.
Proof.
  destruct (CreateShortCode_rejects_bad_custom_code example_url_Parse example_base 5
              request_short_code world0)
    as (Hw & Hlog & Herr & _).
  - discriminate.
  - reflexivity.
  - split_and!; [exact Hw | exact Hlog | apply Herr; reflexivity].
Defined.

(** C8 as stated fails when the URL is invalid too: the URL is checked
    first, and the request fails with ErrInvalidURL. *)
Lemma CreateShortCode_checks_url_first :
  ~ (forall (url_Parse : string -> option service.URL) (baseURL : string) (now : Z)
            (req : CreateShortCodeRequest) (w : World),
       req_CustomCode req <> "" ->
       service.isValidCode (req_CustomCode req) = false ->
       (service.CreateShortCode url_Parse baseURL now req w).1 = inl ErrInvalidCode /\
       (service.CreateShortCode url_Parse baseURL now req w).2 = w).
Proof.
  intros H.
  destruct (H example_url_Parse example_base 5 request_short_code_bad_url world0) as [Habs _].
  - discriminate.
  - reflexivity.
  - vm_compute in Habs. discriminate Habs.
Qed.

(** The write on any database: one insert, and the code of the reply is the
    code that was chosen. *)
Lemma persist_any (baseURL : string) (now : Z) (req : CreateShortCodeRequest)
    (code : string) (w : World) :
  let '(r, w') := persist baseURL now req code w in
  oplog w' = (oplog w ++ [OpInsertShortCode code])%list /\
  drawn w' = drawn w /\
  (forall resp, r = inr resp -> resp_ShortCode resp = code).
Proof.
  unfold persist, bind, try, repository.Create, db_Create_short_code.
  destruct (db_faults w) as [|[] fs] eqn:Hf.
  - rewrite db_exec_healthy by done. simpl.
    destruct (existsb _ _); simpl; unfold fail, ret; split_and!; try done.
    by intros resp [= <-].
  - rewrite (db_exec_broken _ _ _ fs) by done. simpl. unfold fail. done.
  - rewrite (db_exec_passed _ _ _ fs) by done. simpl.
    destruct (existsb _ _); simpl; unfold fail, ret; split_and!; try done.
    by intros resp [= <-].
Qed.

Lemma filter_is_count_all (ops : list StorageOp) :
  forallb is_count ops = true -> List.filter is_count ops = ops.
Proof.
  induction ops as [|op ops IH]; simpl; [done|].
  destruct (is_count op); simpl; [|discriminate].
  intros H. by rewrite IH.
Qed.

(** C6.  Auto-generation.  With no custom code, on any database,
    CreateShortCode issues at most 5 existence checks and draws at most
    5 x 6 random characters; a reply, when there is one, carries one of the
    5 candidates: a code that matches [^[A-Za-z0-9]{6}$] and for which the
    existence check answered false (no live row has it).
    With a valid URL and a database that answers, the candidates are drawn
    and checked in order:
    - if candidate [k] (of the 5) is the first that no live row carries, the
      creation has drawn exactly [6 (k+1)] characters and issued one
      existence check for each of the candidates [0 .. k], then the insert of
      candidate [k]; it returns that code, and the record is in the table
      (unless a soft-deleted row still holds the code in the unique index,
      in which case the insert is refused);
    - if each of the 5 candidates is the code of a live row, it has drawn 30
      characters and issued the 5 checks and nothing else, the table is as
      before, and it fails with the generation error "failed to generate
      unique code after max retries", wrapped.
    On any database the creation fails when all 5 candidates are live. *)
Theorem CreateShortCode_auto_generation
    (url_Parse : string -> option service.URL) (baseURL : string) (now : Z)
    (req : CreateShortCodeRequest) (w : World) :
  req_CustomCode req = "" ->
  let r := (service.CreateShortCode url_Parse baseURL now req w).1 in
  let w' := (service.CreateShortCode url_Parse baseURL now req w).2 in
  let checks n := map (fun j => OpCountShortCode (candidate w j)) (seq 0 n) in
  (exists ops, oplog w' = (oplog w ++ ops)%list /\
               (length (List.filter is_count ops) <= service.maxRetries)%nat) /\
  (drawn w' <= drawn w + service.defaultCodeLength * service.maxRetries)%nat /\
  (forall resp, r = inr resp ->
     matches_alnum6 (resp_ShortCode resp) = true /\
     code_live (resp_ShortCode resp) w = false /\
     exists k, (k < service.maxRetries)%nat /\ resp_ShortCode resp = candidate w k) /\
  (service.isValidURL url_Parse (req_URL req) = true ->
   db_faults w = [] ->
   (forall k,
      (k < service.maxRetries)%nat ->
      code_live (candidate w k) w = false ->
      (forall j, (j < k)%nat -> code_live (candidate w j) w = true) ->
      drawn w' = (drawn w + service.defaultCodeLength * S k)%nat /\
      oplog w' = (oplog w ++ checks (S k) ++ [OpInsertShortCode (candidate w k)])%list /\
      (code_taken (candidate w k) w = false ->
       r = inr {| resp_ShortCode := candidate w k;
                  resp_ShortURL := baseURL +:+ "/" +:+ candidate w k;
                  resp_OriginalURL := req_URL req;
                  resp_CreatedAt := now;
                  resp_ExpiresAt := expiry_of now req |} /\
       short_codes w' =
         (short_codes w ++ [stored_row now req (candidate w k) w])%list) /\
      (code_taken (candidate w k) w = true ->
       r = inl (Errorf_w "failed to create short code" ErrDuplicateKey) /\
       short_codes w' = short_codes w)) /\
   ((forall k, (k < service.maxRetries)%nat -> code_live (candidate w k) w = true) ->
    r = inl (Errorf_w "failed to generate unique code"
               (errors_New "failed to generate unique code after max retries")) /\
    drawn w' = (drawn w + service.defaultCodeLength * service.maxRetries)%nat /\
    oplog w' = (oplog w ++ checks service.maxRetries)%list /\
    short_codes w' = short_codes w)) /\
  ((forall k, (k < service.maxRetries)%nat -> code_live (candidate w k) w = true) ->
   exists err, r = inl err).
Proof.
  intros Hauto r w' checks. subst r w'. rewrite CreateShortCode_split.
  destruct (service.isValidURL url_Parse (req_URL req)); simpl.
  2:{ unfold fail. simpl. split_and!.
      - exists []. rewrite app_nil_r. simpl. split; [done|lia].
      - lia.
      - discriminate.
      - discriminate.
      - intros _. by eexists. }
  unfold bind.
  pose proof (select_code_any req w) as HS.
  pose proof (select_code_generated req w Hauto) as HG.
  destruct (select_code req w) as [r0 w0] eqn:Hsel.
  destruct HS as (Hu & (ops & Hlog & Hlen & Hops) & Hdr & Hdb & Hcode).
  (* on a database that answers *)
  assert (Hhealthy :
    db_faults w = [] ->
    (forall k,
       (k < service.maxRetries)%nat ->
       code_live (candidate w k) w = false ->
       (forall j, (j < k)%nat -> code_live (candidate w j) w = true) ->
       r0 = inr (candidate w k) /\
       drawn w0 = (drawn w + service.defaultCodeLength * S k)%nat /\
       oplog w0 = (oplog w ++ checks (S k))%list) /\
    ((forall k, (k < service.maxRetries)%nat -> code_live (candidate w k) w = true) ->
     r0 = inl (Errorf_w "failed to generate unique code"
                 (errors_New "failed to generate unique code after max retries")) /\
     drawn w0 = (drawn w + service.defaultCodeLength * service.maxRetries)%nat /\
     oplog w0 = (oplog w ++ checks service.maxRetries)%list)).
  { intros Hf. destruct (HG Hf) as (_ & _ & m & Hdrm & Hlogm & Hbefore & Hcases).
    split.
    - intros k Hk Hfree Hlive.
      destruct Hcases as [(Hm & Hr & Hfreem) | (Hm & _ & Hall)].
      + assert (m = S k) as ->.
        { destruct (Nat.lt_trichotomy (m - 1) k) as [Hlt | [Heq | Hgt]].
          - rewrite (Hlive _ Hlt) in Hfreem. discriminate.
          - lia.
          - rewrite (Hbefore _ Hgt) in Hfree. discriminate. }
        replace (S k - 1)%nat with k in Hr by lia. done.
      + rewrite (Hall k Hk) in Hfree. discriminate.
    - intros Hall.
      destruct Hcases as [(Hm & _ & Hfreem) | (-> & Hr & _)]; [|done].
      rewrite Hall in Hfreem by lia. discriminate. }
  destruct r0 as [e|code]; simpl.
  - split_and!.
    + exists ops. split; [done|]. by rewrite filter_is_count_all.
    + done.
    + discriminate.
    + intros _ Hf. destruct (Hhealthy Hf) as [Hfound Hexhaust]. split.
      * intros k Hk Hfree Hlive. destruct (Hfound k Hk Hfree Hlive) as (Habs & _).
        discriminate Habs.
      * intros Hall. destruct (Hexhaust Hall) as (He & Hd & Hl).
        injection He as ->.
        split; [reflexivity|]. split; [exact Hd|]. split; [exact Hl | apply Hu].
    + intros Hall. by eexists.
  - pose proof (persist_any baseURL now req code w0) as HP.
    destruct (Hcode code eq_refl) as (Hlive & _ & Hgen).
    destruct (Hgen Hauto) as (Hmatch & k & Hk & Hcand).
    split_and!.
    + destruct (persist baseURL now req code w0) as [r1 w1].
      destruct HP as (Hlog1 & Hdr1 & Hresp). simpl.
      exists (ops ++ [OpInsertShortCode code])%list.
      split; [by rewrite Hlog1, Hlog, app_assoc|].
      rewrite List.filter_app. simpl. rewrite app_nil_r.
      by rewrite filter_is_count_all.
    + destruct (persist baseURL now req code w0) as [r1 w1].
      destruct HP as (Hlog1 & Hdr1 & Hresp). simpl. by rewrite Hdr1.
    + destruct (persist baseURL now req code w0) as [r1 w1].
      destruct HP as (Hlog1 & Hdr1 & Hresp). simpl.
      intros resp Hr. rewrite (Hresp resp Hr). split_and!; [done | done |].
      by exists k.
    + intros _ Hf. destruct (Hhealthy Hf) as [Hfound Hexhaust]. clear HP. split.
      * intros k' Hk' Hfree' Hlive'.
        destruct (Hfound k' Hk' Hfree' Hlive') as ([= ->] & Hd & Hl).
        rewrite persist_run by auto.
        rewrite (code_taken_untouched _ w w0 Hu).
        assert (Hrow : stored_row now req (candidate w k') w0 =
                       stored_row now req (candidate w k') w).
        { unfold stored_row. by rewrite (proj1 (proj2 Hu)). }
        destruct (code_taken (candidate w k') w); simpl.
        -- split_and!; [done | | discriminate |].
           ++ rewrite Hl. by rewrite <- app_assoc.
           ++ intros _. split; [done | apply Hu].
        -- split_and!; [done | | | discriminate].
           ++ rewrite Hl. by rewrite <- app_assoc.
           ++ intros _. split; [done|]. by rewrite Hrow, (proj1 Hu).
      * intros Hall. destruct (Hexhaust Hall) as (Habs & _). discriminate Habs.
    + intros Hall. exfalso. rewrite Hcand, Hall in Hlive by done. discriminate.
Qed.

Lemma CreateShortCode_auto_generation_witness :
  (* a free candidate: the first one is used *)
  (let res := service.CreateShortCode example_url_Parse example_base 9 request_auto world0 in
   res.1 = inr {| resp_ShortCode := "abcdef";
                  resp_ShortURL := "http://localhost:8080/abcdef";
                  resp_OriginalURL := "https://example.com/a";
                  resp_CreatedAt := 9;
                  resp_ExpiresAt := None |} /\
   matches_alnum6 "abcdef" = true /\ code_live "abcdef" world0 = false /\
   drawn res.2 = 6%nat /\
   oplog res.2 = [OpCountShortCode "abcdef"; OpInsertShortCode "abcdef"] /\
   short_codes res.2 = [stored_row 9 request_auto "abcdef" world0]) /\
  (* all five candidates taken *)
  (let res := service.CreateShortCode example_url_Parse example_base 9 request_auto
                world_saturated in
   res.1 = inl (Errorf_w "failed to generate unique code"
                  (errors_New "failed to generate unique code after max retries")) /\
   drawn res.2 = (drawn world_saturated + 30)%nat /\
   short_codes res.2 = short_codes world_saturated).
Proof.
  destruct (CreateShortCode_auto_generation example_url_Parse example_base 9
              request_auto world0 eq_refl)
    as (_ & _ & Hcode & Hrun & _).
  destruct (Hrun eq_refl eq_refl) as (Hfound & _).
  destruct (Hfound 0%nat) as (Hd & Hl & Hfree & _);
    [unfold service.maxRetries; lia | reflexivity | intros j Hj; lia |].
  destruct (Hfree eq_refl) as (Hr & Hrows).
  destruct (CreateShortCode_auto_generation example_url_Parse example_base 9
              request_auto world_saturated eq_refl)
    as (_ & _ & _ & Hrun' & _).
  destruct (Hrun' eq_refl eq_refl) as (_ & Hexhaust).
  assert (Hall : forall k, (k < service.maxRetries)%nat ->
                           code_live (candidate world_saturated k) world_saturated = true).
  { intros k Hk. unfold service.maxRetries in Hk.
    do 5 (destruct k as [|k]; [vm_compute; reflexivity|]). lia. }
  destruct (Hexhaust Hall) as (He & Hd' & _ & Hrows').
  split.
  - cbv zeta. destruct (Hcode _ Hr) as (Hm & Hlv & _).
    split_and!; [exact Hr | exact Hm | exact Hlv | exact Hd | exact Hl | exact Hrows].
  - cbv zeta. split_and!; [exact He | exact Hd' | exact Hrows'].
Defined.

(** ** Delete *)

Lemma count_zero {A} (f : A -> bool) (l : list A) :
  (Z.of_nat (length (List.filter f l)) =? 0) = negb (existsb f l).
Proof.
  rewrite <- count_positive.
  destruct (Z.eqb_spec (Z.of_nat (length (List.filter f l))) 0) as [->|Hne]; [done|].
  symmetry. apply negb_false_iff, Z.ltb_lt. lia.
Qed.

Lemma Delete_run (now : Z) (code : string) (w : World) :
  healthy w ->
  let w' := (repository.Delete now code w).2 in
  (repository.Delete now code w).1 =
    (if code_live code w then inr tt else inl (errors_New "short code not found")) /\
  short_codes w' = map (mark_deleted now code) (short_codes w) /\
  short_codes_seq w' = short_codes_seq w /\
  redis w' = delete (repository.cacheKey code) (redis w) /\
  oplog w' = (oplog w ++ [OpRedisDel (repository.cacheKey code);
                          OpDeleteShortCode code])%list /\
  healthy w'.
Proof.
  intros [Hdb Hr].
  unfold repository.Delete, repository.InvalidateCache, redis_Del, db_Delete_short_code.
  run_step. rewrite Hr. simpl. rewrite Hdb. simpl.
  rewrite count_zero. fold (code_live code w).
  destruct (code_live code w); simpl; unfold healthy; simpl;
    split_and!; try done;
    exact (eq_sym (List.app_assoc (oplog w) [OpRedisDel (repository.cacheKey code)]
                                  [OpDeleteShortCode code])).
Qed.

Lemma mark_deleted_Code now code r :
  ShortCode.Code (mark_deleted now code r) = ShortCode.Code r.
Proof. unfold mark_deleted. by destruct (has_code code r && live r). Qed.

Lemma mark_deleted_not_live now code r :
  has_code code (mark_deleted now code r) && live (mark_deleted now code r) = false.
Proof.
  unfold mark_deleted. destruct (has_code code r && live r) eqn:H; [|done].
  unfold has_code, live. simpl. apply andb_false_r.
Qed.

(** After the soft delete no live row carries the code, yet every row that
    carried it is still in the table, and in the unique index. *)
Lemma Delete_hides_code (now : Z) (code : string) (w : World) :
  healthy w ->
  let w' := (repository.Delete now code w).2 in
  code_live code w' = false /\ code_taken code w' = code_taken code w.
Proof.
  intros Hw w'. destruct (Delete_run now code w Hw) as (_ & Hrows & _).
  fold w' in Hrows. unfold code_live, code_taken. rewrite Hrows. clear Hrows. split.
  - induction (short_codes w) as [|r l IH]; cbn [map existsb]; [done|].
    by rewrite mark_deleted_not_live, IH.
  - induction (short_codes w) as [|r l IH]; cbn [map existsb]; [done|].
    unfold has_code at 1. rewrite mark_deleted_Code. fold (has_code code r).
    by rewrite IH.
Qed.

Lemma code_live_taken (code : string) (w : World) :
  code_live code w = true -> code_taken code w = true.
Proof.
  unfold code_live, code_taken. rewrite !existsb_exists.
  intros (r & Hin & H). exists r. split; [done|]. by apply andb_true_iff in H as [H _].
Qed.

Lemma isValidCode_nonempty (code : string) :
  service.isValidCode code = true -> code <> "".
Proof. intros H ->. discriminate H. Qed.

(** A custom code that passes validation, on a database that answers. *)
Lemma select_code_custom (req : CreateShortCodeRequest) (w : World) :
  db_faults w = [] ->
  service.isValidCode (req_CustomCode req) = true ->
  select_code req w =
    (if code_live (req_CustomCode req) w then inl ErrCodeExists
     else inr (req_CustomCode req),
     logged (OpCountShortCode (req_CustomCode req)) w).
Proof.
  intros Hdb Hvalid. unfold select_code.
  destruct (String.eqb_spec (req_CustomCode req) "") as [He|_].
  { by apply isValidCode_nonempty in Hvalid. }
  simpl. rewrite Hvalid. simpl. unfold bind, try.
  rewrite CodeExists_run by done.
  by destruct (code_live (req_CustomCode req) w).
Qed.

(** C10.  After DeleteShortCode(C) has succeeded, CodeExists(C) answers
    false, because the count skips soft-deleted rows, while a row with code C
    is still in the table and in its unique index.  A later CreateShortCode
    with custom code C (a URL that the parser in use accepts with scheme
    http or https, a valid code) therefore passes the existence check and
    goes on to the insert: it issues exactly the count and the insert, and
    the insert hits the unique index. *)
Theorem create_after_soft_delete (now : Z) (code : string) (w : World) :
  healthy w ->
  (service.DeleteShortCode now code w).1 = inr tt ->
  let w1 := (service.DeleteShortCode now code w).2 in
  (repository.CodeExists code w1).1 = inr false /\
  code_taken code w1 = true /\
  (forall (url_Parse : string -> option service.URL) (baseURL : string) (now' : Z)
          (req : CreateShortCodeRequest),
     req_CustomCode req = code ->
     service.isValidURL url_Parse (req_URL req) = true ->
     service.isValidCode code = true ->
     let res := service.CreateShortCode url_Parse baseURL now' req w1 in
     oplog res.2 = (oplog w1 ++ [OpCountShortCode code; OpInsertShortCode code])%list /\
     res.1 = inl (Errorf_w "failed to create short code" ErrDuplicateKey)).
Proof.
  intros Hw Hdel w1. unfold service.DeleteShortCode in Hdel, w1.
  destruct (Delete_run now code w Hw) as (Hres & _ & _ & _ & _ & [Hdb1 Hr1]).
  destruct (Delete_hides_code now code w Hw) as [Hlive Htaken].
  fold w1 in Hdb1, Hr1, Hlive, Htaken.
  assert (Hwas : code_taken code w = true).
  { apply code_live_taken. rewrite Hdel in Hres.
    destruct (code_live code w); [done | discriminate]. }
  rewrite Hwas in Htaken.
  split_and!.
  - rewrite CodeExists_run by done. simpl. by rewrite Hlive.
  - done.
  - intros url_Parse baseURL now' req Hcode Hurl Hvalid res. subst res.
    rewrite CreateShortCode_split, Hurl. simpl. unfold bind.
    rewrite select_code_custom by (by rewrite ?Hcode).
    rewrite Hcode, Hlive.
    rewrite persist_run by done.
    change (code_taken code (logged (OpCountShortCode code) w1))
      with (code_taken code w1).
    rewrite Htaken. simpl. split; [|done].
    by rewrite <- app_assoc.
Qed.

Lemma create_after_soft_delete_witness :
  (repository.CodeExists "test1" world_deleted).1 = inr false /\
  code_taken "test1" world_deleted = true /\
  (service.CreateShortCode example_url_Parse example_base 30 request_custom world_deleted).1 =
    inl (Errorf_w "failed to create short code" ErrDuplicateKey) /\
  oplog (service.CreateShortCode example_url_Parse example_base 30 request_custom world_deleted).2 =
    (oplog world_deleted ++ [OpCountShortCode "test1"; OpInsertShortCode "test1"])%list.
Proof.
  assert (Hw : healthy world_created) by (split; reflexivity).
  assert (Hdel : (service.DeleteShortCode 20 "test1" world_created).1 = inr tt)
    by (vm_compute; reflexivity).
  destruct (create_after_soft_delete 20 "test1" world_created Hw Hdel)
    as (Hexists & Htaken & Hcreate).
  destruct (Hcreate example_url_Parse example_base 30 request_custom eq_refl eq_refl eq_refl)
    as [Hlog Hres].
  split_and!; [exact Hexists | exact Htaken | exact Hres | exact Hlog].
Defined.

(** C2 (as amended).  A durable write that violates the unique index on
    [code] makes CreateShortCode fail with the driver's error, wrapped as
    "failed to create short code".  That error is not ErrCodeExists, and the
    handler answers it with 500 internal_error, not with 409.  This holds
    for the write step in whatever state it finds the table (so also when
    another creation slipped in after the existence check), and for the whole
    operation whenever the code it chose is held by a row.  The URL of the
    request is valid for the parser in use, whichever that is. *)
Theorem duplicate_write_is_storage_error
    (url_Parse : string -> option service.URL) (baseURL : string) (now : Z)
    (req : CreateShortCodeRequest) :
  let err := Errorf_w "failed to create short code" ErrDuplicateKey in
  errors_Is err ErrCodeExists = false /\
  (forall code w0,
     db_faults w0 = [] -> code_taken code w0 = true ->
     (persist baseURL now req code w0).1 = inl err) /\
  (forall w code w0,
     db_faults w = [] ->
     service.isValidURL url_Parse (req_URL req) = true ->
     select_code req w = (inr code, w0) ->
     code_taken code w = true ->
     (service.CreateShortCode url_Parse baseURL now req w).1 = inl err /\
     (api.CreateShortCode url_Parse baseURL now req w).1 =
       inr (api.JSON_error api.StatusInternalServerError
              {| api.Error := "internal_error";
                 api.Message := "Failed to create short code" |})).
Proof.
  intros err. split_and!.
  - reflexivity.
  - intros code w0 Hdb Htaken. rewrite persist_run by done. by rewrite Htaken.
  - intros w code w0 Hdb Hurl Hsel Htaken.
    pose proof (select_code_any req w) as HS. rewrite Hsel in HS.
    destruct HS as (Hu & _ & _ & Hdb0 & _).
    assert (Hres : (service.CreateShortCode url_Parse baseURL now req w).1 = inl err).
    { rewrite CreateShortCode_split, Hurl. simpl. unfold bind. rewrite Hsel.
      rewrite persist_run by auto.
      by rewrite (code_taken_untouched code w w0 Hu), Htaken. }
    split; [exact Hres|].
    unfold api.CreateShortCode, bind, try.
    destruct (service.CreateShortCode url_Parse baseURL now req w) as [r w'].
    simpl in Hres. subst r. reflexivity.
Qed.

Lemma duplicate_write_is_storage_error_witness :
  (service.CreateShortCode example_url_Parse example_base 30 request_custom world_deleted).1 =
    inl (Errorf_w "failed to create short code" ErrDuplicateKey) /\
  (api.CreateShortCode example_url_Parse example_base 30 request_custom world_deleted).1 =
    inr (api.JSON_error api.StatusInternalServerError
           {| api.Error := "internal_error";
              api.Message := "Failed to create short code" |}).
Proof.
  destruct (duplicate_write_is_storage_error example_url_Parse example_base 30 request_custom)
    as (_ & _ & H).
  apply (H world_deleted "test1" (select_code request_custom world_deleted).2);
    reflexivity.
Defined.

(** C2 as stated fails: the soft-deleted row of ["test1"] is skipped by the
    existence check and still sits in the unique index, the insert is
    refused, and the error that comes back is not ErrCodeExists. *)
Lemma duplicate_write_is_not_ErrCodeExists :
  ~ (forall (url_Parse : string -> option service.URL) (baseURL : string) (now : Z)
            (req : CreateShortCodeRequest)
            (w : World) (code : string) (w0 : World),
       db_faults w = [] ->
       service.isValidURL url_Parse (req_URL req) = true ->
       select_code req w = (inr code, w0) ->
       code_taken code w = true ->
       exists e, (service.CreateShortCode url_Parse baseURL now req w).1 = inl e /\
                 errors_Is e ErrCodeExists = true).
Proof.
  intros H.
  destruct (H example_url_Parse example_base 30 request_custom world_deleted "test1"
              (select_code request_custom world_deleted).2)
    as (e & He & Hc); try reflexivity.
  vm_compute in He. injection He as <-. vm_compute in Hc. discriminate Hc.
Qed.

(** ** Reading back what was created *)

(** What a successful creation leaves behind, on backends that answer. *)
Lemma CreateShortCode_success
    (url_Parse : string -> option service.URL) (baseURL : string) (now : Z)
    (req : CreateShortCodeRequest) (w w1 : World) (resp : CreateShortCodeResponse) :
  healthy w ->
  service.CreateShortCode url_Parse baseURL now req w = (inr resp, w1) ->
  let code := resp_ShortCode resp in
  code_taken code w = false /\
  short_codes w1 = (short_codes w ++ [stored_row now req code w])%list /\
  redis w1 = redis w /\
  healthy w1 /\
  resp_OriginalURL resp = req_URL req /\
  resp_ExpiresAt resp = expiry_of now req.
Proof.
  intros [Hdb Hr]. rewrite CreateShortCode_split.
  destruct (service.isValidURL url_Parse (req_URL req)); simpl; [|discriminate].
  unfold bind.
  pose proof (select_code_any req w) as HS.
  destruct (select_code req w) as [[e|code] w0]; [discriminate|].
  destruct HS as (Hu & _ & _ & Hdb0 & _).
  rewrite persist_run by auto.
  rewrite (code_taken_untouched code w w0 Hu).
  destruct (code_taken code w) eqn:Htaken; simpl; [discriminate|].
  intros [= <- <-]. simpl.
  destruct Hu as (Hrows & Hseq & _ & _ & _ & Hredis & Hrf & _).
  unfold healthy, stored_row. simpl. rewrite Hrows, Hseq, Hredis, Hrf.
  split_and!; auto.
Qed.

(** The rows that a lookup selects right after a creation: the new row, when
    it passes the condition. *)
Lemma filter_fresh_row (code : string) (cond : ShortCode.t -> bool)
    (rows : list ShortCode.t) (row : ShortCode.t) :
  existsb (has_code code) rows = false ->
  ShortCode.Code row = code ->
  ShortCode.DeletedAt row = None ->
  List.filter (fun r => has_code code r && live r && cond r) (rows ++ [row]) =
    if cond row then [row] else [].
Proof.
  intros Hfree Hcode Hlive. rewrite List.filter_app.
  assert (List.filter (fun r => has_code code r && live r && cond r) rows = []) as ->.
  { apply filter_none. intros x Hx.
    assert (has_code code x = false) as ->; [|done].
    destruct (has_code code x) eqn:Hc; [|done].
    assert (existsb (has_code code) rows = true); [|congruence].
    apply existsb_exists. eauto. }
  simpl. unfold has_code, live. rewrite Hcode, Hlive, String.eqb_refl. simpl.
  by destruct (cond row).
Qed.

Lemma GetOriginalURL_unfold (now : Z) (code : string) (w : World) :
  service.GetOriginalURL now code w =
    match repository.GetByCode now code w with
    | (inl _, w') => (inl ErrCodeNotFound, w')
    | (inr shortCode, w') => (inr (ShortCode.OriginalURL shortCode), w')
    end.
Proof.
  unfold service.GetOriginalURL, bind, try.
  by destruct (repository.GetByCode now code w) as [[e|sc] w'].
Qed.

(** C1.  Round trip with expiration, on backends that answer and a cache
    that only holds codes read from the table.  After CreateShortCode has
    returned code C with expiry [e]:
    - GetOriginalURL(C) at any time before [e] returns the URL;
    - GetOriginalURL(C) at [e] or later fails with ErrCodeNotFound when the
      code is not in the cache;
    - but once a read before [e] has put the row in the cache, a read at
      [e] or later that falls within the cache's 24 hours is answered from
      the cache and still returns the URL. *)
Theorem GetOriginalURL_round_trip
    (url_Parse : string -> option service.URL) (baseURL : string) (now : Z)
    (req : CreateShortCodeRequest) (w w1 : World) (resp : CreateShortCodeResponse)
    (e : Z) :
  healthy w ->
  cache_from_table w ->
  service.CreateShortCode url_Parse baseURL now req w = (inr resp, w1) ->
  resp_ExpiresAt resp = Some e ->
  let C := resp_ShortCode resp in
  (forall t, t < e -> (service.GetOriginalURL t C w1).1 = inr (req_URL req)) /\
  (forall t, e <= t -> (service.GetOriginalURL t C w1).1 = inl ErrCodeNotFound) /\
  (forall t1 t2, t1 < e -> e <= t2 -> t2 < t1 + repository.cacheTTL ->
     (service.GetOriginalURL t2 C (service.GetOriginalURL t1 C w1).2).1 =
       inr (req_URL req)).
Proof.
  intros Hw Hcache Hcreate He C.
  destruct (CreateShortCode_success url_Parse baseURL now req w w1 resp Hw Hcreate)
    as (Hfree & Hrows & Hredis & Hw1 & _ & Hexp).
  fold C in Hfree, Hrows. rewrite He in Hexp.
  set (row := stored_row now req C w) in *.
  assert (Hmiss : forall t, cache_lookup t C w1 = None).
  { intros t. unfold cache_lookup. rewrite Hredis.
    destruct (redis w !! repository.cacheKey C) as [entry|] eqn:Hk; [|done].
    apply Hcache, code_taken_spec in Hk. congruence. }
  assert (Hread : forall t,
    repository.GetByCode t C w1 =
      if t <? e
      then (inr row,
            with_redis (<[repository.cacheKey C :=
                            (json_Marshal row, t + repository.cacheTTL)]> (redis w1))
                       (logged (OpRedisSet (repository.cacheKey C))
                          (logged (OpSelectShortCode C)
                             (logged (OpRedisGet (repository.cacheKey C)) w1))))
      else (inl (errors_New "short code not found"),
            logged (OpSelectShortCode C)
              (logged (OpRedisGet (repository.cacheKey C)) w1))).
  { intros t. rewrite GetByCode_miss by done. cbv zeta.
    rewrite Hrows, filter_fresh_row; [|exact Hfree|reflexivity|reflexivity].
    unfold not_expired. subst row. unfold stored_row at 1. simpl. rewrite <- Hexp.
    by destruct (t <? e). }
  split_and!.
  - intros t Ht. rewrite GetOriginalURL_unfold, Hread.
    destruct (Z.ltb_spec t e); [reflexivity | lia].
  - intros t Ht. rewrite GetOriginalURL_unfold, Hread.
    destruct (Z.ltb_spec t e); [lia | reflexivity].
  - intros t1 t2 H1 H2 Httl.
    rewrite (GetOriginalURL_unfold t1), Hread.
    destruct (Z.ltb_spec t1 e); [|lia]. simpl.
    rewrite GetOriginalURL_unfold.
    rewrite (GetByCode_hit t2 C _ (ShortCode.with_DeletedAt None row));
      [reflexivity | apply Hw1 |].
    unfold cache_lookup. simpl. rewrite lookup_insert_eq.
    destruct (Z.ltb_spec t2 (t1 + repository.cacheTTL)); [reflexivity | lia].
Qed.

Lemma GetOriginalURL_round_trip_witness :
  (* created at 10 with one hour to live; read after one minute *)
  (service.GetOriginalURL (10 + Minute) "test1" world_created).1 =
    inr "https://example.com/a" /\
  (* first read after two hours *)
  (service.GetOriginalURL (10 + 2 * Hour) "test1" world_created).1 =
    inl ErrCodeNotFound /\
  (* read after one minute, then after two hours *)
  (service.GetOriginalURL (10 + 2 * Hour) "test1"
     (service.GetOriginalURL (10 + Minute) "test1" world_created).2).1 =
    inr "https://example.com/a".
Proof.
  assert (Hw : healthy world0) by (split; reflexivity).
  assert (Hc : cache_from_table world0).
  { intros code entry H. simpl in H. rewrite lookup_empty in H. discriminate H. }
  destruct (GetOriginalURL_round_trip example_url_Parse example_base 10 request_custom
              world0 world_created
              {| resp_ShortCode := "test1";
                 resp_ShortURL := "http://localhost:8080/test1";
                 resp_OriginalURL := "https://example.com/a";
                 resp_CreatedAt := 10;
                 resp_ExpiresAt := Some (10 + Hour) |}
              (10 + Hour) Hw Hc eq_refl eq_refl) as (Hbefore & Hafter & Hstale).
  split_and!.
  - apply Hbefore. reflexivity.
  - apply Hafter. discriminate.
  - apply Hstale; [reflexivity | discriminate | reflexivity].
Defined.

(** ** Reads that do not look at the expiry *)

Lemma filter_unique_code (f : ShortCode.t -> bool) (r : ShortCode.t)
    (rows : list ShortCode.t) :
  NoDup (map ShortCode.Code rows) ->
  In r rows ->
  List.filter (fun x => has_code (ShortCode.Code r) x && f x) rows =
    if f r then [r] else [].
Proof.
  induction rows as [|x rows IH]; simpl; [done|].
  intros Hnd Hin. apply NoDup_cons in Hnd as [Hx Hnd].
  rewrite list_elem_of_In in Hx. unfold has_code at 1.
  destruct Hin as [->|Hin].
  - rewrite String.eqb_refl. simpl.
    assert (List.filter (fun x => has_code (ShortCode.Code r) x && f x) rows = []) as ->.
    { apply filter_none. intros y Hy. unfold has_code.
      destruct (String.eqb_spec (ShortCode.Code y) (ShortCode.Code r)) as [He|]; [|done].
      exfalso. apply Hx. rewrite <- He. by apply in_map. }
    by destruct (f r).
  - destruct (String.eqb_spec (ShortCode.Code x) (ShortCode.Code r)) as [He|].
    + exfalso. apply Hx. rewrite He. by apply in_map.
    + simpl. by apply IH.
Qed.

Lemma GetStats_run (code : string) (w : World) :
  db_faults w = [] ->
  (repository.GetStats code w).1 =
    match first_by ShortCode.ID
            (List.filter (fun r => has_code code r && live r && true) (short_codes w)) with
    | Some shortCode =>
        inr {| stats_Code := ShortCode.Code shortCode;
               stats_OriginalURL := ShortCode.OriginalURL shortCode;
               stats_ClickCount := ShortCode.ClickCount shortCode;
               stats_CreatedAt := ShortCode.CreatedAt shortCode;
               stats_LastAccessedAt := ShortCode.LastAccessedAt shortCode |}
    | None => inl (errors_New "short code not found")
    end.
Proof.
  intros Hdb. unfold repository.GetStats, db_First_short_code.
  run_step. rewrite Hdb. simpl.
  by destruct (first_by ShortCode.ID _).
Qed.

Lemma GetDetailedStats_run (now : Z) (code : string) (hours : Z) (w : World) :
  db_faults w = [] ->
  (repository.GetDetailedStats now code hours w).1 =
    match first_by ShortCode.ID
            (List.filter (fun r => has_code code r && live r && true) (short_codes w)) with
    | Some shortCode =>
        let startTime := now + Duration_mul (wrap64 (- hours)) Hour in
        let id := ShortCode.ID shortCode in
        inr {| detailed_Code := ShortCode.Code shortCode;
               detailed_OriginalURL := ShortCode.OriginalURL shortCode;
               detailed_TotalClicks := ShortCode.ClickCount shortCode;
               detailed_UniqueIPs := query_uniqueIPs id hours startTime w;
               detailed_CreatedAt := ShortCode.CreatedAt shortCode;
               detailed_LastAccessedAt := ShortCode.LastAccessedAt shortCode;
               detailed_HourlyStats := query_hourlyStats id hours startTime w;
               detailed_LocationStats := query_locationStats id hours startTime w;
               detailed_RecentAccesses := query_recentAccesses id hours startTime w |}
    | None => inl (errors_New "short code not found")
    end.
Proof.
  intros Hdb. unfold repository.GetDetailedStats, db_First_short_code.
  run_step. rewrite Hdb. simpl.
  destruct (first_by ShortCode.ID _); simpl; [|done].
  rewrite Hdb. simpl. rewrite Hdb. simpl. rewrite Hdb. simpl. rewrite Hdb. reflexivity.
Qed.

Lemma service_GetStats_result (code : string) (w : World) :
  (service.GetStats code w).1 =
    match (repository.GetStats code w).1 with
    | inl _ => inl ErrCodeNotFound
    | inr stats => inr stats
    end.
Proof.
  unfold service.GetStats, bind, try.
  by destruct (repository.GetStats code w) as [[e|s] w'].
Qed.

Lemma service_GetDetailedStats_result (now : Z) (code : string) (hours : Z) (w : World) :
  (service.GetDetailedStats now code hours w).1 =
    match (repository.GetDetailedStats now code hours w).1 with
    | inl _ => inl ErrCodeNotFound
    | inr stats => inr stats
    end.
Proof.
  unfold service.GetDetailedStats, bind, try.
  by destruct (repository.GetDetailedStats now code hours w) as [[e|s] w'].
Qed.

(** C3 (as amended).  A live record whose expiration timestamp lies in the
    past, on backends that answer and a table whose codes are unique:
    - GetOriginalURL treats it as absent (ErrCodeNotFound) whenever the read
      is not answered by the cache;
    - GetStats and GetDetailedStats do not look at the expiry: they return
      the statistics of the record. *)
Theorem expired_record_reads (now : Z) (hours : Z) (r : ShortCode.t) (e : Z) (w : World) :
  healthy w ->
  codes_unique w ->
  In r (short_codes w) ->
  ShortCode.DeletedAt r = None ->
  ShortCode.ExpiresAt r = Some e ->
  e < now ->
  let code := ShortCode.Code r in
  (cache_lookup now code w = None ->
   (service.GetOriginalURL now code w).1 = inl ErrCodeNotFound) /\
  (service.GetStats code w).1 =
    inr {| stats_Code := code;
           stats_OriginalURL := ShortCode.OriginalURL r;
           stats_ClickCount := ShortCode.ClickCount r;
           stats_CreatedAt := ShortCode.CreatedAt r;
           stats_LastAccessedAt := ShortCode.LastAccessedAt r |} /\
  (exists stats,
     (service.GetDetailedStats now code hours w).1 = inr stats /\
     detailed_Code stats = code /\
     detailed_OriginalURL stats = ShortCode.OriginalURL r /\
     detailed_TotalClicks stats = ShortCode.ClickCount r).
Proof.
  intros Hw Hu Hin Hlive Hexp Hpast code.
  assert (Hsel : forall cond,
    List.filter (fun x => has_code code x && live x && cond x) (short_codes w) =
      if cond r then [r] else []).
  { intros cond.
    transitivity (List.filter (fun x => has_code code x && (live x && cond x))
                              (short_codes w)).
    - apply filter_ext. intros x. by rewrite andb_assoc.
    - subst code. rewrite filter_unique_code by done. unfold live. by rewrite Hlive. }
  split_and!.
  - intros Hmiss. rewrite GetOriginalURL_unfold, GetByCode_miss by done. cbv zeta.
    rewrite Hsel. unfold not_expired. rewrite Hexp.
    destruct (Z.ltb_spec now e); [lia | reflexivity].
  - rewrite service_GetStats_result, GetStats_run by apply Hw.
    rewrite (Hsel (fun _ => true)). reflexivity.
  - rewrite service_GetDetailedStats_result, GetDetailedStats_run by apply Hw.
    rewrite (Hsel (fun _ => true)). simpl. eexists. split; [reflexivity|]. done.
Qed.

Lemma expired_record_reads_witness :
  let r := stored_row 10 request_custom "test1" world0 in
  let now := 10 + 2 * Hour in
  (service.GetOriginalURL now "test1" world_created).1 = inl ErrCodeNotFound /\
  (service.GetStats "test1" world_created).1 =
    inr {| stats_Code := "test1";
           stats_OriginalURL := "https://example.com/a";
           stats_ClickCount := 0;
           stats_CreatedAt := 10;
           stats_LastAccessedAt := None |} /\
  (exists stats,
     (service.GetDetailedStats now "test1" 0 world_created).1 = inr stats /\
     detailed_Code stats = "test1" /\
     detailed_OriginalURL stats = "https://example.com/a" /\
     detailed_TotalClicks stats = 0).
Proof.
  intros r now.
  assert (Hw : healthy world_created) by (split; reflexivity).
  assert (Hu : codes_unique world_created).
  { unfold codes_unique. vm_compute. constructor; [intros H; inversion H | constructor]. }
  assert (Hin : In r (short_codes world_created)) by (left; reflexivity).
  destruct (expired_record_reads now 0 r (10 + Hour) world_created
              Hw Hu Hin eq_refl eq_refl eq_refl) as (Hget & Hstats & Hdetailed).
  split_and!; [apply Hget; reflexivity | exact Hstats | exact Hdetailed].
Defined.

(** C3 as stated fails: ["test1"] expired an hour ago, and GetStats still
    returns its statistics. *)
Lemma GetStats_returns_expired_record :
  ~ (forall (now hours : Z) (r : ShortCode.t) (e : Z) (w : World),
       healthy w ->
       codes_unique w ->
       In r (short_codes w) ->
       ShortCode.DeletedAt r = None ->
       ShortCode.ExpiresAt r = Some e ->
       e < now ->
       (service.GetOriginalURL now (ShortCode.Code r) w).1 = inl ErrCodeNotFound /\
       (service.GetStats (ShortCode.Code r) w).1 = inl ErrCodeNotFound /\
       (service.GetDetailedStats now (ShortCode.Code r) hours w).1 = inl ErrCodeNotFound).
Proof.
  intros H.
  destruct (H (10 + 2 * Hour) 0 (stored_row 10 request_custom "test1" world0)
              (10 + Hour) world_created) as (_ & Hstats & _).
  - split; reflexivity.
  - unfold codes_unique. vm_compute. constructor; [intros Hi; inversion Hi | constructor].
  - left. reflexivity.
  - reflexivity.
  - reflexivity.
  - reflexivity.
  - vm_compute in Hstats. discriminate Hstats.
Qed.

(** ** GetDetailedStats *)

Lemma code_live_selects (code : string) (w : World) :
  code_live code w =
    match first_by ShortCode.ID
            (List.filter (fun r => has_code code r && live r && true) (short_codes w)) with
    | Some _ => true
    | None => false
    end.
Proof.
  unfold code_live.
  destruct (first_by ShortCode.ID _) as [r|] eqn:Hf.
  - apply first_by_In, filter_In in Hf as [Hin Hr].
    apply existsb_exists. exists r. split; [done|]. by rewrite andb_true_r in Hr.
  - apply first_by_None in Hf.
    destruct (existsb _ _) eqn:Hex; [|done].
    apply existsb_exists in Hex as (r & Hin & Hr).
    pose proof (proj1 (filter_none _ _) Hf r Hin) as Hn. simpl in Hn.
    rewrite andb_true_r in Hn. congruence.
Qed.

(** C7 (as amended).  The error contract of GetDetailedStats.
    - On a database that answers, when no live row has the code, the
      repository fails with "short code not found".
    - When the base record is found and one of the four sub-queries (unique
      IPs, hourly series, locations, recent accesses) is the first command to
      fail, the repository returns that storage failure unchanged.
    - The service operation turns every failure of the repository, whichever
      it is, into ErrCodeNotFound, and the handler answers 404 not_found: the
      caller cannot tell a failed sub-query from a missing code. *)
Theorem GetDetailedStats_error_contract (now : Z) (code : string) (hours : Z) (w : World) :
  (db_faults w = [] -> code_live code w = false ->
   (repository.GetDetailedStats now code hours w).1 =
     inl (errors_New "short code not found")) /\
  (forall (k : nat) (rest : list bool),
     (1 <= k <= 4)%nat ->
     db_faults w = (replicate k false ++ true :: rest)%list ->
     code_live code w = true ->
     (repository.GetDetailedStats now code hours w).1 = inl ErrBackend) /\
  (forall e,
     (repository.GetDetailedStats now code hours w).1 = inl e ->
     (service.GetDetailedStats now code hours w).1 = inl ErrCodeNotFound /\
     forall (time_ParseDuration : string -> option Z) (Hours_int : Z -> Z)
            (hoursParam : string),
       api.hours_of_query time_ParseDuration Hours_int hoursParam = hours ->
       (api.GetDetailedStats time_ParseDuration Hours_int now code hoursParam w).1 =
         inr api.not_found_reply).
Proof.
  split_and!.
  - intros Hdb Hlive. rewrite GetDetailedStats_run by done.
    rewrite code_live_selects in Hlive.
    by destruct (first_by ShortCode.ID _).
  - intros k rest Hk Hf Hlive. rewrite code_live_selects in Hlive.
    unfold repository.GetDetailedStats, db_First_short_code.
    destruct k as [|[|[|[|[|k]]]]]; try lia; simpl in Hf;
      run_step; rewrite Hf; simpl;
      (destruct (first_by ShortCode.ID _); [reflexivity | discriminate]).
  - intros e He.
    assert (Hs : (service.GetDetailedStats now code hours w).1 = inl ErrCodeNotFound).
    { by rewrite service_GetDetailedStats_result, He. }
    split; [exact Hs|].
    intros parse hours_int hoursParam <-.
    unfold api.GetDetailedStats, bind, try.
    destruct (service.GetDetailedStats now code _ w) as [r w'].
    simpl in Hs. subst r. reflexivity.
Qed.

Lemma GetDetailedStats_error_contract_witness :
  (* no such code *)
  (repository.GetDetailedStats 50 "nosuch" 0 world_created).1 =
    inl (errors_New "short code not found") /\
  (service.GetDetailedStats 50 "nosuch" 0 world_created).1 = inl ErrCodeNotFound /\
  (* the code exists, the unique-IP query fails *)
  (repository.GetDetailedStats 50 "test1" 0 world_stats_outage).1 = inl ErrBackend /\
  (service.GetDetailedStats 50 "test1" 0 world_stats_outage).1 = inl ErrCodeNotFound.
Proof.
  destruct (GetDetailedStats_error_contract 50 "nosuch" 0 world_created)
    as (Hmissing & _ & Hmap1).
  destruct (GetDetailedStats_error_contract 50 "test1" 0 world_stats_outage)
    as (_ & Hsub & Hmap2).
  pose proof (Hmissing eq_refl eq_refl) as H1.
  pose proof (Hsub 1%nat [] ltac:(lia) eq_refl eq_refl) as H2.
  split_and!; [exact H1 | exact (proj1 (Hmap1 _ H1)) | exact H2 | exact (proj1 (Hmap2 _ H2))].
Defined.

(** C7 as stated fails: with ["test1"] in the table and the unique-IP query
    failing, the operation reports ErrCodeNotFound. *)
Lemma GetDetailedStats_hides_storage_error :
  ~ (forall (now : Z) (code : string) (hours : Z) (w : World)
            (k : nat) (rest : list bool),
       (1 <= k <= 4)%nat ->
       db_faults w = (replicate k false ++ true :: rest)%list ->
       code_live code w = true ->
       exists e, (service.GetDetailedStats now code hours w).1 = inl e /\
                 errors_Is e ErrCodeNotFound = false).
Proof.
  intros H.
  destruct (H 50 "test1" 0 world_stats_outage 1%nat []) as (e & He & Hd).
  - lia.
  - reflexivity.
  - reflexivity.
  - vm_compute in He. injection He as <-. vm_compute in Hd. discriminate Hd.
Qed.

(** ** The [hours] query parameter *)


Module float64_facts.
Import SpecFloat.




End float64_facts.

Module gotime_facts.
Import gotime.




Lemma append_cons (c : ascii) (a b : string) : String c a +:+ b = String c (a +:+ b).
Proof. reflexivity. Qed.

Lemma append_nil (b : string) : "" +:+ b = b.
Proof. reflexivity. Qed.

Lemma digit_range (c : ascii) : is_digit c = true -> 0 <= digit c <= 9.
Proof.
  unfold is_digit, digit. intros H. apply andb_true_iff in H as [H1 H2].
  apply Nat.leb_le in H1, H2. lia.
Qed.

Lemma value_from_ge (s : string) : forall x,
  all_digits s = true -> 0 <= x -> x <= value_from x s.
Proof.
  induction s as [|c s IH]; intros x Hs Hx; simpl; [lia|].
  simpl in Hs. apply andb_true_iff in Hs as [Hc Hs].
  pose proof (digit_range c Hc).
  etransitivity; [|apply IH; [done | lia]]. lia.
Qed.

(** [leadingInt] on digits followed by something that is no digit. *)
Lemma leadingInt_from_digits (ds : string) (c : ascii) (rest : string) : forall x,
  all_digits ds = true ->
  is_digit c = false ->
  0 <= x ->
  leadingInt_from x (ds +:+ String c rest) =
    Some (value_from x ds, String c rest) \/
  (leadingInt_from x (ds +:+ String c rest) = None /\ 2 ^ 63 / 10 < value_from x ds).
Proof.
  induction ds as [|d ds IH]; intros x Hds Hc Hx.
  - left. rewrite append_nil. simpl. by rewrite Hc.
  - simpl in Hds. apply andb_true_iff in Hds as [Hd Hds].
    pose proof (digit_range d Hd) as Hr.
    rewrite append_cons. cbn [leadingInt_from value_from]. rewrite Hd.
    destruct (Z.ltb_spec (2 ^ 63 / 10) x) as [Hbig|Hsmall].
    { right. split; [done|].
      eapply Z.lt_le_trans; [exact Hbig|].
      etransitivity; [|apply value_from_ge; [done | lia]]. lia. }
    destruct (Z.ltb_spec (2 ^ 63) (x * 10 + digit d)) as [Hbig|Hsmall'].
    { right. split; [done|].
      eapply Z.lt_le_trans; [|apply value_from_ge; [done | lia]].
      assert (2 ^ 63 / 10 < 2 ^ 63) by (vm_compute; reflexivity). lia. }
    apply IH; [done | done | lia].
Qed.

Lemma leadingInt_from_small (ds : string) (c : ascii) (rest : string) (x : Z) :
  all_digits ds = true ->
  is_digit c = false ->
  0 <= x ->
  value_from x ds <= 2 ^ 63 / 10 ->
  leadingInt_from x (ds +:+ String c rest) = Some (value_from x ds, String c rest).
Proof.
  intros Hds Hc Hx Hv.
  destruct (leadingInt_from_digits ds c rest x Hds Hc Hx) as [H | [_ H]]; [done | lia].
Qed.





End gotime_facts.

Module gotime_fuel.
Import gotime.

Lemma leadingInt_from_length (s : string) : forall x v s1,
  leadingInt_from x s = Some (v, s1) -> (String.length s1 <= String.length s)%nat.
Proof.
  induction s as [|c s IH]; intros x v s1; simpl.
  - intros [= _ <-]. simpl. lia.
  - destruct (is_digit c); [|intros [= _ <-]; simpl; lia].
    destruct (2 ^ 63 / 10 <? x); [discriminate|].
    destruct (2 ^ 63 <? x * 10 + digit c); [discriminate|].
    intros H. apply IH in H. lia.
Qed.

Lemma leadingFraction_from_length (s : string) : forall x scale o f scale' s2,
  leadingFraction_from x scale o s = (f, scale', s2) ->
  (String.length s2 <= String.length s)%nat.
Proof.
  induction s as [|c s IH]; intros x scale o f scale' s2; simpl.
  - intros [= _ _ <-]. simpl. lia.
  - destruct (is_digit c); [|intros [= _ _ <-]; simpl; lia].
    destruct o; [intros H; apply IH in H; lia|].
    destruct ((2 ^ 63 - 1) / 10 <? x); [intros H; apply IH in H; lia|].
    destruct (2 ^ 63 <? x * 10 + digit c); intros H; apply IH in H; lia.
Qed.

Lemma unit_span_length (s : string) : forall u s3,
  unit_span s = (u, s3) ->
  String.length s = (String.length u + String.length s3)%nat.
Proof.
  induction s as [|c s IH]; intros u s3; simpl.
  - intros [= <- <-]. reflexivity.
  - destruct (Ascii.eqb c "." || is_digit c); [intros [= <- <-]; reflexivity|].
    destruct (unit_span s) as [u' s'] eqn:E. intros [= <- <-].
    simpl. by rewrite (IH u' s').
Qed.

(** Every round of the loop takes at least one byte off the string. *)
Lemma parse_term_shorter (s : string) (d : Z) (s' : string) (d' : Z) :
  parse_term s d = Some (s', d') -> (String.length s' < String.length s)%nat.
Proof.
  unfold parse_term. destruct s as [|c s0]; [discriminate|].
  set (s := String c s0).
  destruct (negb (Ascii.eqb c "." || is_digit c)); [discriminate|].
  destruct (leadingInt s) as [[v s1]|] eqn:Hint; [|discriminate].
  apply leadingInt_from_length in Hint.
  assert (Hfrac : forall f scale s2 post,
    match s1 with
    | String "." rest =>
        let '(f, scale, s2) := leadingFraction rest in
        (f, scale, s2, negb (String.length rest =? String.length s2)%nat)
    | _ => (0, float64.of_Z 1, s1, false)
    end = (f, scale, s2, post) ->
    (String.length s2 <= String.length s1)%nat).
  { intros f scale s2 post.
    destruct s1 as [|c1 rest]; [intros [= _ _ <- _]; simpl; lia|].
    destruct (Ascii.eqb_spec c1 ".") as [->|Hne].
    - destruct (leadingFraction rest) as [[f' scale'] s2'] eqn:E.
      intros [= _ _ <- _]. apply leadingFraction_from_length in E. simpl. lia.
    - destruct c1 as [[] [] [] [] [] [] [] []]; try (intros [= _ _ <- _]; simpl; lia).
      done. }
  destruct (match s1 with String "." rest => _ | _ => _ end)
    as [[[f scale] s2] post] eqn:Efrac.
  specialize (Hfrac f scale s2 post eq_refl). clear Efrac.
  destruct (negb (negb (String.length s =? String.length s1)%nat) && negb post);
    [discriminate|].
  destruct (unit_span s2) as [u s3] eqn:Eunit.
  apply unit_span_length in Eunit.
  destruct (String.eqb_spec u "") as [->|Hu]; [discriminate|].
  destruct (unitMap u) as [unit|]; [|discriminate].
  destruct (2 ^ 63 / unit <? v); [discriminate|].
  destruct ((0 <? f) && _); [discriminate|].
  destruct (2 ^ 63 <? _); [discriminate|].
  intros [= <- _].
  destruct u as [|cu u]; [done|]. simpl in Eunit. subst s. simpl in *. lia.
Qed.

(** The loop never stops for lack of fuel: any fuel above the length of the
    string gives the same result. *)
Lemma parse_terms_fuel (fuel : nat) : forall fuel' s d,
  (String.length s < fuel)%nat -> (String.length s < fuel')%nat ->
  parse_terms fuel s d = parse_terms fuel' s d.
Proof.
  induction fuel as [|fuel IH]; intros fuel' s d H H'; [lia|].
  destruct fuel' as [|fuel']; [lia|]. simpl.
  destruct (String.eqb s ""); [reflexivity|].
  destruct (parse_term s d) as [[s1 d1]|] eqn:E; [|reflexivity].
  apply parse_term_shorter in E. apply IH; lia.
Qed.

End gotime_fuel.




(** ** The assumptions on the world are kept by the operations

    [sound] holds of the empty world and is preserved by creation, lookup and
    deletion, so it holds after any sequence of them. *)

Lemma cacheKey_inj (a b : string) :
  repository.cacheKey a = repository.cacheKey b -> a = b.
Proof.
  unfold repository.cacheKey. cbv [String.append]. intros H. by injection H.
Qed.

Lemma sound_world0 : sound world0.
Proof.
  split_and!; [split; reflexivity | constructor |].
  intros code entry H. simpl in H. rewrite lookup_empty in H. discriminate H.
Qed.

Lemma sound_untouched (w w' : World) :
  untouched w w' -> db_faults w' = [] -> sound w -> sound w'.
Proof.
  intros (Hrows & _ & _ & _ & _ & Hredis & Hrf & _) Hdb ([_ Hr] & Hu & Hc).
  unfold sound, healthy, codes_unique, cache_from_table.
  rewrite Hrows, Hredis, Hrf. auto.
Qed.

Lemma CreateShortCode_sound (url_Parse : string -> option service.URL) (baseURL : string) (now : Z)
    (req : CreateShortCodeRequest) (w : World) :
  sound w -> sound (service.CreateShortCode url_Parse baseURL now req w).2.
Proof.
  intros Hs. rewrite CreateShortCode_split.
  destruct (service.isValidURL url_Parse (req_URL req)); simpl; [|exact Hs].
  unfold bind.
  pose proof (select_code_any req w) as HS.
  destruct (select_code req w) as [[e|code] w0]; simpl;
    destruct HS as (Hu & _ & _ & Hdb0 & _);
    pose proof (sound_untouched w w0 Hu (Hdb0 (proj1 (proj1 Hs))) Hs) as Hs0;
    [exact Hs0|].
  destruct Hs0 as ([Hdb Hr] & Huniq & Hcache).
  rewrite persist_run by done.
  destruct (code_taken code w0) eqn:Htaken; simpl.
  - split_and!; [split | |]; done.
  - split_and!; [split; done | |].
    + unfold codes_unique. simpl. rewrite map_app. simpl.
      apply NoDup_app. split_and!; [exact Huniq | | apply NoDup_singleton].
      intros c Hc Hc'. apply list_elem_of_singleton in Hc'. subst c.
      apply list_elem_of_In, code_taken_spec in Hc. congruence.
    + intros c entry Hk. simpl in Hk. simpl. rewrite map_app. apply in_or_app.
      left. by apply (Hcache c entry).
Qed.

Lemma GetOriginalURL_sound (now : Z) (code : string) (w : World) :
  sound w -> sound (service.GetOriginalURL now code w).2.
Proof.
  intros (Hw & Huniq & Hcache). rewrite GetOriginalURL_unfold.
  destruct (cache_lookup now code w) as [sc|] eqn:Hc.
  - rewrite (GetByCode_hit now code w sc) by (apply Hw || done).
    split_and!; done.
  - rewrite GetByCode_miss by done. cbv zeta.
    destruct (first_by ShortCode.ID _) as [r|] eqn:Hf; [|split_and!; done].
    apply first_by_In, filter_In in Hf as [Hin Hr].
    apply andb_true_iff in Hr as [Hr _]. apply andb_true_iff in Hr as [Hr _].
    apply String.eqb_eq in Hr.
    split_and!; [done | done |].
    intros c entry Hk. simpl in Hk. simpl.
    destruct (decide (repository.cacheKey code = repository.cacheKey c)) as [He|Hne].
    + apply cacheKey_inj in He. subst c. rewrite <- Hr. by apply in_map.
    + rewrite lookup_insert_ne in Hk by done. by apply (Hcache c entry).
Qed.

Lemma DeleteShortCode_sound (now : Z) (code : string) (w : World) :
  sound w -> sound (service.DeleteShortCode now code w).2.
Proof.
  intros (Hw & Huniq & Hcache). unfold service.DeleteShortCode.
  destruct (Delete_run now code w Hw) as (_ & Hrows & _ & Hredis & _ & Hw').
  assert (Hcodes : map ShortCode.Code (short_codes (repository.Delete now code w).2)
                   = map ShortCode.Code (short_codes w)).
  { rewrite Hrows, map_map. apply map_ext. intros. apply mark_deleted_Code. }
  split_and!; [done | |].
  - unfold codes_unique. by rewrite Hcodes.
  - intros c entry Hk. rewrite Hcodes. rewrite Hredis in Hk.
    apply lookup_delete_Some in Hk as [_ Hk]. by apply (Hcache c entry).
Qed.
